(** * check_qgis_algorithms.py: the QGIS availability prober

    A shallow embedding of [check_qgis_algorithms.py] and the properties
    its specification states about it.

    - Text is a Stdlib [string] that holds the UTF-8 bytes of the Python
      [str].  [Str.chars] gives its characters (code points); [strip],
      [len] and slicing act on characters, as in Python.  [Str.lower]
      changes the ASCII letters only: Python also lowers other letters,
      but the script uses [lower] only to look for its ASCII keywords, and
      no other letter lowers to text that holds one of them.
    - The script talks to its surroundings through [os.environ],
      [platform], [os.path.exists], [subprocess.run] and [print].  The
      surroundings are a [World]; every call of the last three is recorded
      in a [Trace] threaded through a small state-and-exception monad.
    - [print] can raise: the standard output may refuse a line that its
      encoding cannot hold.  The script is written over the [print] it is
      given ([Script]); the plain names ([main], [get_qgis_info], ...) are
      the script on a standard output that accepts every line, and the
      names in [_on] take a [Console], which says which lines raise.
    - A Python [dict] is a [gmap] from its string keys to [value]s. *)

From Stdlib Require Import ZArith Ascii String List Lia Bool.
From stdpp Require Import base option gmap strings pretty.

Import ListNotations.
Local Open Scope string_scope.

(* ------------------------------------------------------------------ *)
(** ** Python's string operations *)

Module Str.

(** [c.lower()] on one character. *)
Definition lower_ascii (c : ascii) : ascii :=
  let n := nat_of_ascii c in
  if (65 <=? n)%nat && (n <=? 90)%nat then ascii_of_nat (n + 32) else c.

(** [s.lower()]. *)
Fixpoint lower (s : string) : string :=
  match s with
  | EmptyString => EmptyString
  | String c s' => String (lower_ascii c) (lower s')
  end.

(** [s.startswith(k)]. *)
Fixpoint startswith (k s : string) : bool :=
  match k, s with
  | EmptyString, _ => true
  | String _ _, EmptyString => false
  | String a k', String b s' => Ascii.eqb a b && startswith k' s'
  end.

(** [k in s]: [k] occurs in [s] at some offset. *)
Fixpoint contains (k s : string) : bool :=
  startswith k s ||
  match s with
  | EmptyString => false
  | String _ s' => contains k s'
  end.

(** A continuation byte of UTF-8: [10xxxxxx]. *)
Definition is_cont (c : ascii) : bool :=
  let n := nat_of_ascii c in (128 <=? n)%nat && (n <? 192)%nat.

(** The text starts with a continuation byte. *)
Definition starts_cont (s : string) : bool :=
  match s with EmptyString => false | String c _ => is_cont c end.

(** The characters of a text, each with the bytes that encode it: a byte
    opens a character unless it is a continuation byte. *)
Fixpoint chars (s : string) : list string :=
  match s with
  | EmptyString => []
  | String c s' =>
      match chars s' with
      | [] => [String c EmptyString]
      | ch :: rest =>
          if starts_cont ch then String c ch :: rest
          else String c EmptyString :: ch :: rest
      end
  end.

(** The text made of the characters [l]. *)
Fixpoint unchars (l : list string) : string :=
  match l with
  | [] => EmptyString
  | ch :: rest => ch ++ unchars rest
  end.

(** Continuation bytes only. *)
Fixpoint all_cont (s : string) : bool :=
  match s with
  | EmptyString => true
  | String c s' => is_cont c && all_cont s'
  end.

(** One character: a byte and the continuation bytes after it. *)
Definition is_char (ch : string) : bool :=
  match ch with EmptyString => false | String _ rest => all_cont rest end.

(** A list of characters as [chars] gives them: after the first, each
    opens with a byte that is no continuation byte. *)
Definition segmented (l : list string) : Prop :=
  Forall (fun ch => is_char ch = true) l /\
  Forall (fun ch => starts_cont ch = false) (tail l).

(** [len(s)]: the number of characters. *)
Definition len (s : string) : nat := List.length (chars s).

(** The text with the bytes [bytes]. *)
Definition of_bytes (bytes : list nat) : string :=
  string_of_list_ascii (map ascii_of_nat bytes).

(** The characters for which [str.isspace] holds, which are those that
    [str.strip()] removes, in UTF-8. *)
Definition whitespace : list string :=
  map of_bytes
    [ [9]; [10]; [11]; [12]; [13];             (* U+0009 .. U+000D *)
      [28]; [29]; [30]; [31]; [32];            (* U+001C .. U+0020 *)
      [194; 133]; [194; 160];                  (* U+0085, U+00A0 *)
      [225; 154; 128];                         (* U+1680 *)
      [226; 128; 128]; [226; 128; 129]; [226; 128; 130]; [226; 128; 131];
      [226; 128; 132]; [226; 128; 133]; [226; 128; 134]; [226; 128; 135];
      [226; 128; 136]; [226; 128; 137]; [226; 128; 138];
                                               (* U+2000 .. U+200A *)
      [226; 128; 168]; [226; 128; 169];        (* U+2028, U+2029 *)
      [226; 128; 175];                         (* U+202F *)
      [226; 129; 159];                         (* U+205F *)
      [227; 128; 128] ].                       (* U+3000 *)

(** [ch.isspace()] for one character. *)
Definition isspace (ch : string) : bool := existsb (String.eqb ch) whitespace.

(** Drop the white space at the front. *)
Fixpoint drop_space (l : list string) : list string :=
  match l with
  | [] => []
  | ch :: rest => if isspace ch then drop_space rest else l
  end.

(** Drop the white space after the last other character. *)
Fixpoint drop_space_end (l : list string) : list string :=
  match l with
  | [] => []
  | ch :: rest =>
      match drop_space_end rest with
      | [] => if isspace ch then [] else [ch]
      | kept => ch :: kept
      end
  end.

(** [s.strip()]. *)
Definition strip (s : string) : string :=
  unchars (drop_space_end (drop_space (chars s))).

(** Truthiness of a string: [bool(s)]. *)
Definition truthy (s : string) : bool :=
  match s with EmptyString => false | String _ _ => true end.

(** [s.split(sep)] for a one-character separator: never the empty list. *)
Fixpoint split (sep : ascii) (s : string) : list string :=
  match s with
  | EmptyString => [EmptyString]
  | String c s' =>
      if Ascii.eqb c sep then EmptyString :: split sep s'
      else match split sep s' with
           | [] => [String c EmptyString]
           | w :: ws => String c w :: ws
           end
  end.

(** [s[:n]]: the first [n] characters. *)
Definition slice_to (n : nat) (s : string) : string :=
  unchars (firstn n (chars s)).

(** [n] spaces. *)
Fixpoint spaces (n : nat) : string :=
  match n with O => EmptyString | S n' => String " " (spaces n') end.

(** The format [{s:Ns}]: pad on the right up to width [w]. *)
Definition ljust (w : nat) (s : string) : string :=
  s ++ spaces (w - len s).

(** The format [{i:Nd}]: the decimal numeral, padded on the left. *)
Definition fmt_d (w : nat) (n : nat) : string :=
  let d := pretty n in spaces (w - String.length d) ++ d.


(** The line feed the script splits on. *)
Definition LF : ascii := ascii_of_nat 10.

End Str.

(* ------------------------------------------------------------------ *)
(** ** The surroundings of the script *)

(** What [subprocess.run] raises: [subprocess.TimeoutExpired],
    [FileNotFoundError], or any other subclass of [Exception]
    ([PermissionError], [OSError], [UnicodeDecodeError], ...), known by
    the name of its type. *)
Inductive exn_class : Type :=
  | TimeoutExpired
  | FileNotFoundError
  | OtherException (type_name : string).

(** A raised exception: its class and [str(e)]. *)
Record exn : Type := Exn { exn_cls : exn_class; exn_str : string }.

(** [type(e).__name__]. *)
Definition type_name_of (e : exn) : string :=
  match exn_cls e with
  | TimeoutExpired => "TimeoutExpired"
  | FileNotFoundError => "FileNotFoundError"
  | OtherException n => n
  end.

(** [subprocess.CompletedProcess] under [capture_output=True, text=True]. *)
Record CompletedProcess : Type := Completed {
  returncode : Z;
  stdout : string;
  stderr : string
}.

Inductive outcome : Type :=
  | Returns (r : CompletedProcess)
  | Raises (e : exn).

(** Everything the script reads.  [proc n args timeout] is what the
    [n]-th call of [subprocess.run] does when given [args] and [timeout]
    (in seconds); [fs] says which non-empty paths exist. *)
Record World : Type := {
  environ : gmap string string;
  platform_system : string;
  platform_machine : string;
  platform_python_version : string;
  fs : string -> bool;
  proc : nat -> list string -> Z -> outcome
}.

(** One call of [subprocess.run]: the command line and the [timeout=]. *)
Record invocation : Type := Invoke { inv_args : list string; inv_timeout : Z }.

(** What a run has done so far, oldest first. *)
Record Trace : Type := {
  printed : list string;        (* one entry per call of [print]: its text,
                                   which may hold line breaks *)
  probed : list string;         (* arguments of [os.path.exists] *)
  invoked : list invocation     (* calls of [subprocess.run] *)
}.

Definition start : Trace := {| printed := []; probed := []; invoked := [] |}.

(* ------------------------------------------------------------------ *)
(** ** The monad: a trace, and a value or a raised exception *)

Inductive result (A : Type) : Type :=
  | Ok (a : A)
  | Raise (e : exn).
Arguments Ok {A} a.
Arguments Raise {A} e.

Definition M (A : Type) : Type := Trace -> result A * Trace.

Definition ret {A} (a : A) : M A := fun t => (Ok a, t).

Definition bind {A B} (m : M A) (k : A -> M B) : M B :=
  fun t =>
    match m t with
    | (Ok a, t') => k a t'
    | (Raise e, t') => (Raise e, t')
    end.

Declare Scope py_scope.
Delimit Scope py_scope with py.
Notation "x <- m ;; k" := (bind m (fun x => k))
  (at level 100, m at next level, right associativity) : py_scope.
Notation "m ;; k" := (bind m (fun _ => k))
  (at level 100, right associativity) : py_scope.
Local Open Scope py_scope.

(** An [except] clause: which exceptions it takes, and its body. *)
Record clause (A : Type) : Type := Except {
  catches : exn -> bool;
  handler : exn -> M A
}.
Arguments Except {A} catches handler.
Arguments catches {A} c e.
Arguments handler {A} c e.

(** [except C:] for a class [C] of the script, by [isinstance]. *)
Definition isinstance (c : exn_class) (e : exn) : bool :=
  match c, exn_cls e with
  | TimeoutExpired, TimeoutExpired => true
  | FileNotFoundError, FileNotFoundError => true
  | _, _ => false
  end.

(** [except Exception:] and the bare [except:]. *)
Definition any_exception (e : exn) : bool := true.

(** The first clause that takes [e] handles it; with none, [e] goes on. *)
Fixpoint dispatch {A} (cs : list (clause A)) (e : exn) : M A :=
  match cs with
  | [] => fun t => (Raise e, t)
  | c :: cs' => if catches c e then handler c e else dispatch cs' e
  end.

(** [try: body  except ...: ...]. *)
Definition try_except {A} (body : M A) (cs : list (clause A)) : M A :=
  fun t =>
    match body t with
    | (Ok a, t') => (Ok a, t')
    | (Raise e, t') => dispatch cs e t'
    end.

(** [for x in xs: body x]. *)
Fixpoint for_each {X} (xs : list X) (body : X -> M unit) : M unit :=
  match xs with
  | [] => ret tt
  | x :: xs' => body x ;; for_each xs' body
  end.

(** [print(s)] on a standard output that accepts every line. *)
Definition print (s : string) : M unit :=
  fun t => (Ok tt, {| printed := printed t ++ [s];
                      probed := probed t;
                      invoked := invoked t |}).

(** A standard output: for each line, the exception that [print] raises
    when it cannot write the line there ([UnicodeEncodeError] for a
    character outside the encoding of the stream, [OSError] or
    [ValueError] for a stream that is closed), or [None]. *)
Definition Console : Type := string -> option exn.

(** [print(s)] on the standard output [c]. *)
Definition print_on (c : Console) (s : string) : M unit :=
  fun t =>
    match c s with
    | Some e => (Raise e, t)
    | None => print s t
    end.

(** The standard output accepts every line. *)
Definition accepts_all (c : Console) : Prop := forall s, c s = None.

(** [os.path.exists(p)]: the empty path never exists. *)
Definition os_path_exists (w : World) (p : string) : M bool :=
  fun t => (Ok (Str.truthy p && fs w p),
            {| printed := printed t;
               probed := probed t ++ [p];
               invoked := invoked t |}).

(** [subprocess.run(args, capture_output=True, text=True, timeout=timeout)]. *)
Definition subprocess_run (w : World) (args : list string) (timeout : Z)
  : M CompletedProcess :=
  fun t =>
    let t' := {| printed := printed t;
                 probed := probed t;
                 invoked := invoked t ++ [Invoke args timeout] |} in
    match proc w (List.length (invoked t)) args timeout with
    | Returns r => (Ok r, t')
    | Raises e => (Raise e, t')
    end.

(** The value and the trace of a whole run. *)
Definition run {A} (m : M A) : result A * Trace := m start.

(* ------------------------------------------------------------------ *)
(** ** The script *)

(** The values the script stores in its dictionaries. *)
Inductive value : Type :=
  | VNone
  | VBool (b : bool)
  | VInt (n : Z)
  | VStr (s : string)
  | VList (l : list string).

Definition nl : string := String Str.LF EmptyString.

(** [c * n], as in ["=" * 40]. *)
Fixpoint times (c : string) (n : nat) : string :=
  match n with O => EmptyString | S n' => c ++ times c n' end.

(** [enumerate(l)]. *)
Definition enumerate {X} (l : list X) : list (nat * X) :=
  combine (seq 0 (List.length l)) l.

(** The platform tables of [get_qgis_path], keyed by
    [platform.system().lower()]; [None] is the final [else]. *)
Definition possible_paths (system : string) : option (list string) :=
  if String.eqb system "windows" then
    Some [ "C:\Program Files\QGIS 3.42.3\bin\qgis_process-qgis.bat";
           "C:\Program Files\QGIS 3.40.0\bin\qgis_process-qgis.bat";
           "C:\Program Files\QGIS 3.38.0\bin\qgis_process-qgis.bat";
           "C:\OSGeo4W\bin\qgis_process-qgis.bat";
           "C:\OSGeo4W64\bin\qgis_process-qgis.bat" ]
  else if String.eqb system "linux" then
    Some [ "/usr/bin/qgis_process";
           "/usr/local/bin/qgis_process";
           "/opt/qgis/bin/qgis_process";
           "/usr/bin/qgis-lts";
           "/usr/bin/qgis" ]
  else if String.eqb system "darwin" then
    Some [ "/Applications/QGIS.app/Contents/MacOS/bin/qgis_process";
           "/usr/local/bin/qgis_process" ]
  else None.

(** [qgis_path and os.path.exists(qgis_path)], with Python's short cut. *)
Definition env_path_exists (w : World) (qgis_path : option string) : M bool :=
  match qgis_path with
  | None => ret false
  | Some p => if Str.truthy p then os_path_exists w p else ret false
  end.

(** [any(keyword in line.lower() for keyword in keywords)]. *)
Definition any_keyword_in (keywords : list string) (line : string) : bool :=
  existsb (fun keyword => Str.contains keyword (Str.lower line)) keywords.

(** [[line.strip() for line in out.split('\n') if line.strip()]]. *)
Definition clean_lines (out : string) : list string :=
  map Str.strip
      (List.filter (fun line => Str.truthy (Str.strip line))
                   (Str.split Str.LF out)).

(** The keyword list of the filter in [check_qgis_algorithms]. *)
Definition tile_keywords : list string :=
  ["tile"; "qtiles"; "xyz"; "tms"; "raster"].

(** [[line for line in lines if any(...)]] in [check_qgis_algorithms]. *)
Definition tile_filter (lines : list string) : list string :=
  List.filter (any_keyword_in tile_keywords) lines.

(** The keyword list of the filter in [get_qgis_info]. *)
Definition info_tile_keywords : list string :=
  ["tile"; "qtiles"; "xyz"; "tms"].

(** [[line for line in lines if any(...)][:5]] in [get_qgis_info]. *)
Definition info_tile_algorithms (lines : list string) : list string :=
  firstn 5 (List.filter (any_keyword_in info_tile_keywords) lines).

Definition categories : list (string * list string) :=
  [ ("Vector", ["vector"; "geometry"; "buffer"; "clip"]);
    ("Raster", ["raster"; "dem"; "slope"; "aspect"]);
    ("Processing", ["dissolve"; "merge"; "join"; "intersect"]);
    ("Analysis", ["distance"; "area"; "statistics"; "spatial"]);
    ("Export", ["export"; "save"; "write"; "output"]) ].

(** [sum(1 for line in lines if any(keyword in line.lower() ...))]. *)
Definition category_count (keywords : list string) (lines : list string) : nat :=
  list_sum (map (fun _ => 1%nat)
                (List.filter (any_keyword_in keywords) lines)).

(** The counts in the order the script prints them. *)
Definition category_counts (lines : list string) : list (string * nat) :=
  map (fun '(category, keywords) => (category, category_count keywords lines))
      categories.

(** [x or y] on strings. *)
Definition str_or (x y : string) : string := if Str.truthy x then x else y.

(** The inner [try] of [get_qgis_info]: the optional version string. *)
Definition info_version (w : World) (qgis_path : string)
    (info : gmap string value) : M (gmap string value) :=
  try_except
    (version_result <- subprocess_run w [qgis_path; "--version"] 10 ;;
     if (returncode version_result =? 0)%Z then
       ret (<["qgis_version" := VStr (Str.strip (stdout version_result))]> info)
     else ret info)
    [ Except any_exception (fun _ => ret info) ].

(** The [try] of [get_qgis_info].  The dictionary is changed only after
    the listing call has returned, so each clause starts from [info]. *)
Definition info_with (w : World) (qgis_path : string)
    (info : gmap string value) : M (gmap string value) :=
  try_except
    (result <- subprocess_run w [qgis_path; "list"] 30 ;;
     if (returncode result =? 0)%Z then
       let lines := clean_lines (stdout result) in
       let info := <["total_algorithms" := VInt (Z.of_nat (List.length lines))]> info in
       let info := <["tile_algorithms" := VList (info_tile_algorithms lines)]> info in
       let info := <["qgis_working" := VBool true]> info in
       let info := <["qgis_version" := VStr "Available"]> info in
       info_version w qgis_path info
     else
       let info := <["qgis_working" := VBool false]> info in
       ret (<["error" := VStr (str_or (stderr result) "QGIS command failed")]> info))
    [ Except (isinstance TimeoutExpired) (fun _ =>
        let info := <["qgis_working" := VBool false]> info in
        ret (<["error" := VStr "QGIS command timed out"]> info));
      Except any_exception (fun e =>
        let info := <["qgis_working" := VBool false]> info in
        ret (<["error" := VStr (exn_str e)]> info)) ].

(** [None] or the string, as a dictionary value. *)
Definition opt_value (o : option string) : value :=
  match o with Some s => VStr s | None => VNone end.

(** The dictionary [get_qgis_info] starts from. *)
Definition initial_info (w : World) (qgis_path : option string)
  : gmap string value :=
  <["manual_method_available" := VBool true]>
  (<["platform" := VStr (platform_system w)]>
  (<["qgis_path" := opt_value qgis_path]>
  (<["qgis_found" := VBool (bool_decide (qgis_path <> None))]> ∅))).

(** The [try] of [test_qgis_algorithm]. *)
Definition test_with (w : World) (qgis_path algorithm_name : string)
  : M (gmap string value) :=
  try_except
    (result <- subprocess_run w [qgis_path; "help"; algorithm_name] 30 ;;
     if (returncode result =? 0)%Z then
       ret (<["qgis_path" := VStr qgis_path]>
           (<["help" := VStr (Str.slice_to 1000 (stdout result))]>
           (<["available" := VBool true]>
           (<["algorithm" := VStr algorithm_name]> ∅))))
     else
       ret (<["qgis_path" := VStr qgis_path]>
           (<["error" := VStr (stderr result)]>
           (<["available" := VBool false]>
           (<["algorithm" := VStr algorithm_name]> ∅)))))
    [ Except any_exception (fun e =>
        ret (<["qgis_path" := VStr qgis_path]>
            (<["error" := VStr (exn_str e)]>
            (<["available" := VBool false]>
            (<["algorithm" := VStr algorithm_name]> ∅))))) ].

(** *** Formatting for [main] *)

Module Fmt.

Definition quote1 : ascii := ascii_of_nat 39.      (* the single quote *)
Definition quote2 : ascii := ascii_of_nat 34.      (* the double quote *)
Definition backslash : ascii := ascii_of_nat 92.

(** [c in s] for one character. *)
Fixpoint has (c : ascii) (s : string) : bool :=
  match s with
  | EmptyString => false
  | String a s' => Ascii.eqb a c || has c s'
  end.

Definition hex_digit (n : nat) : ascii :=
  ascii_of_nat (if (n <? 10)%nat then 48 + n else 87 + n).

(** One character inside [repr(s)], between quotes [q]. *)
Definition repr_char (q c : ascii) : string :=
  let n := nat_of_ascii c in
  if Ascii.eqb c q || Ascii.eqb c backslash then
    String backslash (String c EmptyString)
  else if (n =? 9)%nat then String backslash "t"
  else if (n =? 10)%nat then String backslash "n"
  else if (n =? 13)%nat then String backslash "r"
  else if (n <? 32)%nat || (n =? 127)%nat then
    String backslash
      (String "x" (String (hex_digit (n / 16))
                          (String (hex_digit (n mod 16)) EmptyString)))
  else String c EmptyString.

Fixpoint repr_chars (q : ascii) (s : string) : string :=
  match s with
  | EmptyString => EmptyString
  | String c s' => repr_char q c ++ repr_chars q s'
  end.

(** [repr(s)] of a string: single quotes, unless the string has a single
    quote and no double quote.  The bytes of a character outside ASCII are
    kept, as Python keeps every printable character; Python escapes the
    characters outside ASCII that are not printable (U+00A0, U+200B, ...),
    which this leaves as they are. *)
Definition repr (s : string) : string :=
  let q := if has quote1 s && negb (has quote2 s) then quote2 else quote1 in
  String q (repr_chars q s ++ String q EmptyString).

(** [", ".join(l)]. *)
Fixpoint join (l : list string) : string :=
  match l with
  | [] => EmptyString
  | [x] => x
  | x :: rest => x ++ ", " ++ join rest
  end.

End Fmt.

(** [f"{value}"]: [str] of a dictionary value. *)
Definition format_value (v : value) : string :=
  match v with
  | VNone => "None"
  | VBool true => "True"
  | VBool false => "False"
  | VInt n => pretty n
  | VStr s => s
  | VList l => "[" ++ Fmt.join (map Fmt.repr l) ++ "]"
  end.

(** The keys of the record of [get_qgis_info], in the order in which the
    function inserts them: the four of the initial dictionary, then
    [total_algorithms], [tile_algorithms], [qgis_working], [qgis_version]
    after a listing, or [qgis_working], [error] after a failure. *)
Definition info_keys : list string :=
  [ "qgis_found"; "qgis_path"; "platform"; "manual_method_available";
    "total_algorithms"; "tile_algorithms"; "qgis_working"; "qgis_version";
    "error" ].

(** [info.items()]: a Python dictionary iterates in insertion order. *)
Definition items (info : gmap string value) : list (string * value) :=
  omap (fun key => (fun v => (key, v)) <$> info !! key) info_keys.

(* ------------------------------------------------------------------ *)
(** ** The functions of the script

    The functions that print, for any standard output: [print] stands for
    what [print(...)] does there.  The definitions before this point are
    the parts of the script that do not print. *)

Module Script.
Section Console.

Variable print : string -> M unit.

(** The loop [for path in possible_paths], and what follows it. *)
Fixpoint first_existing (w : World) (system : string) (paths : list string)
  : M (option string) :=
  match paths with
  | [] =>
      print ("QGIS not found on " ++ system ++ " platform") ;;
      ret None
  | path :: rest =>
      found <- os_path_exists w path ;;
      if found then
        print ("Found QGIS at: " ++ path) ;;
        ret (Some path)
      else first_existing w system rest
  end.

Definition get_qgis_path (w : World) : M (option string) :=
  let qgis_path := environ w !! "QGIS_PATH" in
  use_env <- env_path_exists w qgis_path ;;
  if use_env then
    print ("Using QGIS from environment variable: " ++ default "" qgis_path) ;;
    ret qgis_path
  else
    let system := Str.lower (platform_system w) in
    match possible_paths system with
    | None =>
        print ("Unsupported platform: " ++ system) ;;
        ret None
    | Some paths => first_existing w system paths
    end.

(** [for i, alg in enumerate(algs): print(f"  {i+1:2d}. {alg}")]. *)
Definition print_numbered (algs : list string) : M unit :=
  for_each (enumerate algs)
           (fun '(i, alg) => print ("  " ++ Str.fmt_d 2 (i + 1) ++ ". " ++ alg)).

(** The report of [check_qgis_algorithms] when no binary was found. *)
Definition report_not_found : M bool :=
  print "❌ QGIS not found on this system" ;;
  print (nl ++ "💡 Solutions:") ;;
  print "  1. For local development:" ;;
  print "     - Windows: Install QGIS Desktop from qgis.org" ;;
  print "     - Linux: sudo apt install qgis" ;;
  print "     - macOS: brew install qgis" ;;
  print "  2. For Railway deployment:" ;;
  print "     - Use Docker with QGIS pre-installed" ;;
  print "     - Set QGIS_PATH environment variable" ;;
  print "  3. Alternative: Manual tile download is working!" ;;
  ret false.

(** The inner [try] of [check_qgis_algorithms]: the optional version check. *)
Definition check_version (w : World) (qgis_path : string) : M unit :=
  try_except
    (version_result <- subprocess_run w [qgis_path; "--version"] 30 ;;
     if (returncode version_result =? 0)%Z then
       print ("QGIS Version: " ++ Str.strip (stdout version_result))
     else ret tt)
    [ Except any_exception (fun _ => ret tt) ].

(** The report on a successful listing, from "Process algorithms" on. *)
Definition report_algorithms (qgis_path : string) (lines : list string) : M bool :=
  print (nl ++ "📋 Total algorithms found: " ++ pretty (List.length lines)) ;;
  print (times "=" 50) ;;
  print "Sample algorithms:" ;;
  print_numbered (firstn 10 lines) ;;
  (if (10 <? List.length lines)%nat then
     print ("  ... and " ++ pretty (List.length lines - 10)%nat ++ " more")
   else ret tt) ;;
  let tile_algorithms := tile_filter lines in
  print (nl ++ "🗂️  Tile/Raster-related algorithms ("
            ++ pretty (List.length tile_algorithms) ++ " found):") ;;
  print (times "=" 50) ;;
  (match tile_algorithms with
   | _ :: _ =>
       print_numbered (firstn 15 tile_algorithms) ;;
       if (15 <? List.length tile_algorithms)%nat then
         print ("  ... and " ++ pretty (List.length tile_algorithms - 15)%nat
                   ++ " more tile-related algorithms")
       else ret tt
   | [] => print "  No tile-specific algorithms found"
   end) ;;
  print (nl ++ "📊 Algorithm Categories:") ;;
  print (times "=" 30) ;;
  for_each (category_counts lines)
           (fun '(category, count) =>
              print ("  " ++ Str.ljust 12 category ++ ": "
                        ++ Str.fmt_d 3 count ++ " algorithms")) ;;
  print (nl ++ "✅ QGIS is working properly!") ;;
  print ("   Path: " ++ qgis_path) ;;
  print ("   Total algorithms: " ++ pretty (List.length lines)) ;;
  print ("   Tile-related: " ++ pretty (List.length tile_algorithms)) ;;
  ret true.

(** What [check_qgis_algorithms] does with the result of the listing. *)
Definition check_listed (qgis_path : string) (result : CompletedProcess)
  : M bool :=
  if negb (returncode result =? 0)%Z then
    print ("❌ QGIS command failed: " ++ stderr result) ;;
    print ("Return code: " ++ pretty (returncode result)) ;;
    ret false
  else report_algorithms qgis_path (clean_lines (stdout result)).

(** The three [except] clauses of [check_qgis_algorithms], in order. *)
Definition check_clauses (qgis_path : string) : list (clause bool) :=
  [ Except (isinstance TimeoutExpired) (fun _ =>
      print "❌ QGIS command timed out (60 seconds)" ;;
      print "This might indicate QGIS is installed but not working properly" ;;
      ret false);
    Except (isinstance FileNotFoundError) (fun _ =>
      print ("❌ QGIS executable not found at: " ++ qgis_path) ;;
      ret false);
    Except any_exception (fun e =>
      print ("❌ Error checking QGIS: " ++ exn_str e) ;;
      print ("Exception type: " ++ type_name_of e) ;;
      ret false) ].

(** The outer [try] of [check_qgis_algorithms]. *)
Definition check_with (w : World) (qgis_path : string) : M bool :=
  try_except
    (print ("✅ QGIS found at: " ++ qgis_path) ;;
     print "Checking QGIS version and algorithms..." ;;
     check_version w qgis_path ;;
     result <- subprocess_run w [qgis_path; "list"] 60 ;;
     check_listed qgis_path result)
    (check_clauses qgis_path).

Definition check_qgis_algorithms (w : World) : M bool :=
  print "🔍 QGIS Algorithm Checker" ;;
  print (times "=" 40) ;;
  let system_info :=
    [ ("Platform", platform_system w);
      ("Architecture", platform_machine w);
      ("Python Version", platform_python_version w);
      ("Environment", default "production" (environ w !! "FLASK_ENV")) ] in
  print "System Information:" ;;
  for_each system_info (fun '(key, value) => print ("  " ++ key ++ ": " ++ value)) ;;
  print "" ;;
  qgis_path <- get_qgis_path w ;;
  match qgis_path with
  | Some p => if Str.truthy p then check_with w p else report_not_found
  | None => report_not_found
  end.

Definition get_qgis_info (w : World) : M (gmap string value) :=
  qgis_path <- get_qgis_path w ;;
  let info := initial_info w qgis_path in
  match qgis_path with
  | Some p => if Str.truthy p then info_with w p info else ret info
  | None => ret info
  end.

Definition test_qgis_algorithm (w : World) (algorithm_name : string)
  : M (gmap string value) :=
  qgis_path <- get_qgis_path w ;;
  let not_found : gmap string value := {[ "error" := VStr "QGIS not found" ]} in
  match qgis_path with
  | Some p => if Str.truthy p then test_with w p algorithm_name else ret not_found
  | None => ret not_found
  end.

(** The body of the loop [for key, value in info.items()] of [main]. *)
Definition print_item (item : string * value) : M unit :=
  let '(key, value) := item in
  match value with
  | VList l =>
      if (3 <? List.length l)%nat then
        print ("  " ++ key ++ ": " ++ pretty (List.length l)
                    ++ " items (showing first 3)") ;;
        for_each (firstn 3 l) (fun item => print ("    - " ++ item))
      else print ("  " ++ key ++ ": " ++ format_value value)
  | _ => print ("  " ++ key ++ ": " ++ format_value value)
  end.

(** The summary of [main]: the record, then the environment notes. *)
Definition print_summary (w : World) : M unit :=
  print (nl ++ times "=" 50) ;;
  print "📊 Summary for Flask Integration:" ;;
  print (times "-" 30) ;;
  info <- get_qgis_info w ;;
  for_each (items info) print_item ;;
  print (nl ++ "🔧 Environment Setup:") ;;
  print "  - Set QGIS_PATH environment variable if needed" ;;
  print ("  - Current platform: " ++ platform_system w) ;;
  print "  - Manual tile download: Always available".

(** The last lines of [main]. *)
Definition print_verdict (success : bool) : M unit :=
  if success then
    print (nl ++ "✅ Ready for deployment!") ;;
    print "  - QGIS integration: Working" ;;
    print "  - Fallback method: Available"
  else
    print (nl ++ "⚠️  Ready for deployment with limitations!") ;;
    print "  - QGIS integration: Not available" ;;
    print "  - Fallback method: Available (sufficient for basic usage)".

Definition main (w : World) : M bool :=
  print "🚀 Enhanced QGIS Algorithm Checker" ;;
  print (times "=" 50) ;;
  success <- check_qgis_algorithms w ;;
  print_summary w ;;
  print_verdict success ;;
  ret success.

End Console.
End Script.

(** The script on a standard output that accepts every line. *)
Abbreviation first_existing := (Script.first_existing print).
Abbreviation get_qgis_path := (Script.get_qgis_path print).
Abbreviation print_numbered := (Script.print_numbered print).
Abbreviation report_not_found := (Script.report_not_found print).
Abbreviation check_version := (Script.check_version print).
Abbreviation report_algorithms := (Script.report_algorithms print).
Abbreviation check_listed := (Script.check_listed print).
Abbreviation check_clauses := (Script.check_clauses print).
Abbreviation check_with := (Script.check_with print).
Abbreviation check_qgis_algorithms := (Script.check_qgis_algorithms print).
Abbreviation get_qgis_info := (Script.get_qgis_info print).
Abbreviation test_qgis_algorithm := (Script.test_qgis_algorithm print).
Abbreviation print_item := (Script.print_item print).
Abbreviation print_summary := (Script.print_summary print).
Abbreviation print_verdict := (Script.print_verdict print).
Abbreviation main := (Script.main print).

(** The script on the standard output [c]. *)
Abbreviation check_qgis_algorithms_on c := (Script.check_qgis_algorithms (print_on c)).
Abbreviation get_qgis_info_on c := (Script.get_qgis_info (print_on c)).
Abbreviation test_qgis_algorithm_on c := (Script.test_qgis_algorithm (print_on c)).
Abbreviation main_on c := (Script.main (print_on c)).
Abbreviation get_qgis_path_on c := (Script.get_qgis_path (print_on c)).

(* ------------------------------------------------------------------ *)
(** ** What the specification calls things *)

(** [line] contains [keyword], letter case aside. *)
Definition icontains (keyword line : string) : Prop :=
  exists before after, Str.lower line = before ++ keyword ++ after.

(** A line is related to a keyword set when it contains one of them. *)
Definition related (keywords : list string) (line : string) : Prop :=
  exists keyword, In keyword keywords /\ icontains keyword line.

(** [selection P lines kept]: [kept] is the subsequence of the [lines]
    that satisfy [P], in the order of [lines]. *)
Inductive selection (P : string -> Prop) : list string -> list string -> Prop :=
  | selection_nil : selection P [] []
  | selection_keep line lines kept :
      P line -> selection P lines kept ->
      selection P (line :: lines) (line :: kept)
  | selection_skip line lines kept :
      ~ P line -> selection P lines kept ->
      selection P (line :: lines) kept.

(** [walk P xs seen r]: going through [xs] in order and stopping at the
    first element that satisfies [P] looks at [seen] and ends with [r]:
    that element, or [None] when no element satisfies [P]. *)
Inductive walk {X} (P : X -> Prop) : list X -> list X -> option X -> Prop :=
  | walk_none xs : Forall (fun x => ~ P x) xs -> walk P xs xs None
  | walk_some before x after :
      Forall (fun y => ~ P y) before -> P x ->
      walk P (before ++ x :: after)%list (before ++ [x])%list (Some x).

(** The path exists: what [os.path.exists] answers in world [w]. *)
Definition path_exists (w : World) (p : string) : Prop :=
  Str.truthy p && fs w p = true.

(** The resolver, run on its own, returns [o]. *)
Definition resolves_to (w : World) (o : option string) : Prop :=
  fst (run (get_qgis_path w)) = Ok o.

(** The recognised values of [platform.system().lower()]. *)
Definition recognised : list string := ["windows"; "linux"; "darwin"].

(** Appending what a computation did to what was done before. *)
Definition extend (t d : Trace) : Trace :=
  {| printed := (printed t ++ printed d)%list;
     probed := (probed t ++ probed d)%list;
     invoked := (invoked t ++ invoked d)%list |}.

(** [m] always returns a value: no exception leaves it. *)
Definition never_raises {A} (m : M A) : Prop :=
  forall t, exists a, fst (m t) = Ok a.

(** Everything [m] adds to the part [part] of the trace satisfies [P]. *)
Definition adds_only {X A} (part : Trace -> list X) (P : X -> Prop)
    (m : M A) : Prop :=
  forall t, exists d : list X,
    part (snd (m t)) = (part t ++ d)%list /\ Forall P d.

(** Every call of [subprocess.run] that [m] makes satisfies [P]. *)
Abbreviation invokes_only := (adds_only invoked).

(** Every line that [m] prints satisfies [P]. *)
Abbreviation prints_only := (adds_only printed).

(** The lines that report a failure carry this mark. *)
Definition failure_line (s : string) : bool := Str.startswith "❌" s.

(** [s] reports no failure. *)
Definition calm (s : string) : Prop := failure_line s = false.

(** [m] neither reads the trace nor calls [subprocess.run]: run after
    [t], it does what it does from [start], appended to [t]. *)
Definition framed {A} (m : M A) : Prop :=
  forall t, m t = (fst (m start), extend t (snd (m start))).

(** The environment names no existing path: [QGIS_PATH] is unset, or
    set to a path that does not exist. *)
Definition no_override (w : World) : Prop :=
  forall p, environ w !! "QGIS_PATH" = Some p -> ~ path_exists w p.

(** What [QGIS_PATH] makes the resolver probe. *)
Definition override_probe (w : World) : list string :=
  match environ w !! "QGIS_PATH" with
  | Some p => if Str.truthy p then [p] else []
  | None => []
  end.


(** The three ways the script calls the binary. *)
Inductive call_kind : Type := VersionCheck | Listing | HelpCheck.

(** Which of them an invocation is, by its arguments. *)
Definition kind_of (inv : invocation) : option call_kind :=
  match inv_args inv with
  | [_; "--version"] => Some VersionCheck
  | [_; "list"] => Some Listing
  | [_; "help"; _] => Some HelpCheck
  | _ => None
  end.

(** The bounds the specification gives: 30 seconds for version and help
    checks, 60 seconds for the full listing. *)
Definition spec_timeout (k : call_kind) : Z :=
  match k with
  | VersionCheck => 30
  | Listing => 60
  | HelpCheck => 30
  end%Z.

(** An invocation is one of the three and carries the specified bound. *)
Definition within_spec_timeout (inv : invocation) : Prop :=
  exists k, kind_of inv = Some k /\ inv_timeout inv = spec_timeout k.

(** The bounds of the quick test in [get_qgis_info]: 30 seconds for the
    listing, 10 seconds for the version. *)
Definition quick_timeout (inv : invocation) : Prop :=
  (kind_of inv = Some Listing /\ inv_timeout inv = 30%Z) \/
  (kind_of inv = Some VersionCheck /\ inv_timeout inv = 10%Z).

(* ------------------------------------------------------------------ *)
(** ** Sample worlds *)

Module Sample.

(** A binary that is not there. *)
Definition missing : nat -> list string -> Z -> outcome :=
  fun _ _ _ => Raises (Exn FileNotFoundError "[Errno 2] No such file or directory").

(** A working [qgis_process] whose [list] prints [listing]. *)
Definition working (listing : string) : nat -> list string -> Z -> outcome :=
  fun _ args _ =>
    match args with
    | [_; "--version"] => Returns (Completed 0 ("QGIS 3.34.4" ++ nl) "")
    | [_; "list"] => Returns (Completed 0 listing "")
    | [_; "help"; "native:buffer"] =>
        Returns (Completed 0 ("Buffer (native:buffer)" ++ nl) "")
    | _ => Returns (Completed 1 "" "Algorithm not found")
    end.

(** [working], except that the calls chosen by [slow] time out. *)
Definition stalling (slow : list string -> bool) (listing : string)
  : nat -> list string -> Z -> outcome :=
  fun n args timeout =>
    if slow args then Raises (Exn TimeoutExpired "Command timed out")
    else working listing n args timeout.

Definition is_version (args : list string) : bool :=
  match args with [_; "--version"] => true | _ => false end.

Definition is_list (args : list string) : bool :=
  match args with [_; "list"] => true | _ => false end.

(** A machine: its environment, its platform, the files that exist on it
    and how its subprocesses behave. *)
Definition machine (env : gmap string string) (system : string)
    (files : list string) (p : nat -> list string -> Z -> outcome) : World :=
  {| environ := env;
     platform_system := system;
     platform_machine := "x86_64";
     platform_python_version := "3.11.4";
     fs := fun path => existsb (String.eqb path) files;
     proc := p |}.

Definition join_lines (lines : list string) : string :=
  fold_right (fun line rest => line ++ nl ++ rest) "" lines.

Definition listing5 : string :=
  join_lines ["buffer"; "qtiles_generate"; "raster_calc"; "dissolve"; "xyz_export"].

Definition listing7 : string :=
  join_lines ["raster_calc"; "tile_a"; "tile_b"; "tile_c"; "tile_d";
              "tile_e"; "tile_f"].

(** Linux with [qgis_process] in the second candidate place. *)
Definition linux_box (listing : string) : World :=
  machine ∅ "Linux" ["/usr/local/bin/qgis_process"; "/usr/bin/qgis"]
          (working listing).

(** Linux without QGIS. *)
Definition bare_linux : World := machine ∅ "Linux" [] missing.

(** [QGIS_PATH] names an existing file, and candidates exist as well. *)
Definition with_override : World :=
  machine {[ "QGIS_PATH" := "/opt/custom/qgis_process" ]} "Linux"
          ["/opt/custom/qgis_process"; "/usr/bin/qgis_process"]
          (working listing5).

(** [QGIS_PATH] names a file that is not there; macOS has its second
    candidate. *)
Definition stale_override : World :=
  machine {[ "QGIS_PATH" := "/gone/qgis_process" ]} "Darwin"
          ["/usr/local/bin/qgis_process"] (working listing5).

(** A platform the script does not know, where every path exists except
    the one [QGIS_PATH] names. *)
Definition freebsd : World :=
  {| environ := {[ "QGIS_PATH" := "/gone/qgis_process" ]};
     platform_system := "FreeBSD";
     platform_machine := "amd64";
     platform_python_version := "3.11.4";
     fs := fun path => negb (String.eqb path "/gone/qgis_process");
     proc := missing |}.

(** The candidate is there, but running it fails. *)
Definition broken : World :=
  machine ∅ "Linux" ["/usr/bin/qgis_process"] missing.

(** The version check stalls; the listing works. *)
Definition slow_version : World :=
  machine ∅ "Linux" ["/usr/bin/qgis_process"] (stalling is_version listing5).

(** The listing stalls. *)
Definition slow_list : World :=
  machine ∅ "Linux" ["/usr/bin/qgis_process"] (stalling is_list listing5).

End Sample.

(* ------------------------------------------------------------------ *)
(** ** Further notions *)

(** The [n]-th call of the run, [list] with [timeout], returns with exit
    code zero. *)
Definition listing_succeeds (w : World) (n : nat) (p : string) (timeout : Z)
  : bool :=
  match proc w n [p; "list"] timeout with
  | Returns r => (returncode r =? 0)%Z
  | Raises _ => false
  end.

(** The command line is a version check: [[path, "--version"]]. *)
Definition is_version_call (args : list string) : bool :=
  match args with
  | [_; flag] => String.eqb flag "--version"
  | _ => false
  end.

(** Two worlds that differ at most in what a version check does. *)
Definition same_but_version (w w' : World) : Prop :=
  environ w = environ w' /\
  platform_system w = platform_system w' /\
  (forall p, fs w p = fs w' p) /\
  (forall n args timeout,
     is_version_call args = false ->
     proc w n args timeout = proc w' n args timeout).

(** The calls of [check_qgis_algorithms] when the resolver returned [o]. *)
Definition check_calls (o : option string) : list invocation :=
  match o with
  | Some p => [Invoke [p; "--version"] 30; Invoke [p; "list"] 60]
  | None => []
  end.

(** The calls of [get_qgis_info] when the resolver returned [o] and [n]
    calls were made before. *)
Definition info_calls (w : World) (n : nat) (o : option string)
  : list invocation :=
  match o with
  | Some p =>
      Invoke [p; "list"] 30 ::
      (if listing_succeeds w n p 30 then [Invoke [p; "--version"] 10] else [])
  | None => []
  end.

(** Every line that [m] prints, at most [n] of them. *)
Definition prints_at_most {A} (n : nat) (m : M A) : Prop :=
  forall t, exists d : list string,
    printed (snd (m t)) = (printed t ++ d)%list /\ List.length d <= n.

(** A line is trimmed: [strip] leaves it as it is. *)
Definition trimmed (line : string) : Prop := Str.strip line = line.

Module Cases.

(** [Sample.working], except that every version check times out. *)
Definition no_version (listing : string) : nat -> list string -> Z -> outcome :=
  fun n args timeout =>
    if is_version_call args then Raises (Exn TimeoutExpired "Command timed out")
    else Sample.working listing n args timeout.

(** Linux with a binary that lists [Sample.listing7]. *)
Definition plain : World :=
  Sample.machine ∅ "Linux" ["/usr/bin/qgis_process"]
                 (Sample.working Sample.listing7).

(** The same machine with a version check that hangs. *)
Definition hanging : World :=
  Sample.machine ∅ "Linux" ["/usr/bin/qgis_process"]
                 (no_version Sample.listing7).

End Cases.

(** Two computations that do the same from every trace. *)
Definition same {A} (m m' : M A) : Prop := forall t, m t = m' t.

Module Consoles.

(** A standard output that accepts every line. *)
Definition accepting : Console := fun _ => None.



End Consoles.
(* ------------------------------------------------------------------ *)
(** ** Strings *)

Module StrFacts.
Import Str.

Lemma startswith_app k s : startswith k (k ++ s) = true.
Proof.
  induction k as [|a k IH]; simpl; [reflexivity|].
  rewrite Ascii.eqb_refl. exact IH.
Qed.

Lemma startswith_split k s :
  startswith k s = true -> exists after, s = k ++ after.
Proof.
  revert s. induction k as [|a k IH]; intros s H; simpl in *.
  - exists s. reflexivity.
  - destruct s as [|b s]; [discriminate|].
    apply andb_prop in H as [Hab Hk].
    apply Ascii.eqb_eq in Hab. subst b.
    destruct (IH _ Hk) as [after ->]. exists after. reflexivity.
Qed.

Lemma contains_head k s :
  contains k s =
  startswith k s ||
  match s with EmptyString => false | String _ s' => contains k s' end.
Proof. destruct s; reflexivity. Qed.

Lemma contains_intro k before after :
  contains k (before ++ k ++ after) = true.
Proof.
  induction before as [|c before IH].
  - change (EmptyString ++ k ++ after) with (k ++ after).
    rewrite contains_head, startswith_app. reflexivity.
  - change (String c before ++ k ++ after)
      with (String c (before ++ k ++ after)).
    rewrite contains_head, IH. apply orb_true_r.
Qed.

Lemma contains_elim k s :
  contains k s = true -> exists before after, s = before ++ k ++ after.
Proof.
  induction s as [|c s IH]; simpl; intros H.
  - rewrite orb_false_r in H. apply startswith_split in H as [after ->].
    exists EmptyString, after. reflexivity.
  - apply orb_prop in H as [H|H].
    + apply startswith_split in H as [after ->].
      exists EmptyString, after. reflexivity.
    + destruct (IH H) as (before & after & ->).
      exists (String c before), after. reflexivity.
Qed.

(** [k in s] decides that [k] occurs in [s]. *)
Lemma contains_spec k s :
  contains k s = true <-> exists before after, s = before ++ k ++ after.
Proof.
  split; [apply contains_elim|].
  intros (before & after & ->). apply contains_intro.
Qed.

Lemma app_string_assoc (a b c : string) : (a ++ b) ++ c = a ++ (b ++ c).
Proof.
  induction a as [|x a IH]; [reflexivity|].
  change (String x ((a ++ b) ++ c) = String x (a ++ (b ++ c))).
  f_equal. exact IH.
Qed.

(** The characters of a text make up the text. *)
Lemma unchars_chars s : unchars (chars s) = s.
Proof.
  induction s as [|c s IH]; [reflexivity|]. simpl.
  destruct (chars s) as [|ch rest]; simpl in *.
  - rewrite <- IH. reflexivity.
  - destruct (starts_cont ch); simpl; rewrite <- IH; reflexivity.
Qed.

Lemma unchars_app l1 l2 : unchars (l1 ++ l2) = unchars l1 ++ unchars l2.
Proof.
  induction l1 as [|ch l1 IH]; [reflexivity|]. simpl.
  rewrite IH, app_string_assoc. reflexivity.
Qed.

Lemma chars_segmented s : segmented (chars s).
Proof.
  unfold segmented. induction s as [|c s [IHok IHtail]]; simpl.
  - split; constructor.
  - destruct (chars s) as [|ch rest] eqn:E; simpl in *.
    + split; repeat constructor.
    + inversion IHok as [|? ? Hch Hrest]; subst.
      destruct (starts_cont ch) eqn:Ech; simpl.
      * split; [|exact IHtail]. constructor; [|exact Hrest].
        destruct ch as [|a ch]; [discriminate|]. simpl in *.
        rewrite Ech, Hch. reflexivity.
      * split; [repeat constructor; assumption|].
        constructor; assumption.
Qed.

Lemma segmented_tail ch l : segmented (ch :: l) -> segmented l.
Proof.
  intros [Hok Htail]. inversion Hok; subst. split; [assumption|].
  simpl in Htail. destruct l; [constructor|]. inversion Htail; assumption.
Qed.

Lemma chars_head c s :
  chars (String c s) =
  match chars s with
  | [] => [String c EmptyString]
  | ch :: rest =>
      if starts_cont ch then String c ch :: rest
      else String c EmptyString :: ch :: rest
  end.
Proof. reflexivity. Qed.

(** One character in front of a text opens a character of its own. *)
Lemma chars_cons_char x rest :
  is_char x = true ->
  match chars rest with [] => True | ch :: _ => starts_cont ch = false end ->
  chars (x ++ rest) = x :: chars rest.
Proof.
  destruct x as [|b y]; [discriminate|]. simpl is_char.
  revert b. induction y as [|c y IH]; intros b Hy Hrest.
  - change (chars (String b rest) = String b EmptyString :: chars rest).
    rewrite chars_head. destruct (chars rest) as [|ch gs]; [reflexivity|].
    rewrite Hrest. reflexivity.
  - simpl in Hy. apply andb_prop in Hy as [Hc Hy].
    change (chars (String b (String c y ++ rest)) =
            String b (String c y) :: chars rest).
    rewrite chars_head, (IH c Hy Hrest). simpl. rewrite Hc. reflexivity.
Qed.

(** A segmented list is the list of characters of its text. *)
Lemma chars_unchars l : segmented l -> chars (unchars l) = l.
Proof.
  induction l as [|ch l IH]; intros Hseg; [reflexivity|].
  pose proof (IH (segmented_tail _ _ Hseg)) as Hl.
  destruct Hseg as [Hok Htail]. inversion Hok; subst. simpl.
  rewrite chars_cons_char; [rewrite Hl; reflexivity | assumption |].
  rewrite Hl. destruct l; [exact I|]. simpl in Htail.
  inversion Htail; assumption.
Qed.

Lemma segmented_firstn n l : segmented l -> segmented (firstn n l).
Proof.
  intros [Hok Htail]. split.
  - apply Forall_take. exact Hok.
  - destruct l as [|ch l]; [destruct n; constructor|].
    destruct n; [constructor|]. simpl in *. apply Forall_take. exact Htail.
Qed.

(** [s[:n]] has at most [n] characters. *)
Lemma slice_to_length n s : len (slice_to n s) <= n.
Proof.
  unfold len, slice_to.
  rewrite chars_unchars by apply segmented_firstn, chars_segmented.
  apply firstn_le_length.
Qed.

(** [s[:n]] is a prefix of [s]. *)
Lemma slice_to_prefix n s : exists rest, s = slice_to n s ++ rest.
Proof.
  exists (unchars (skipn n (chars s))). unfold slice_to.
  rewrite <- unchars_app, firstn_skipn, unchars_chars. reflexivity.
Qed.

(** [s[:n]] is [s] when [s] has at most [n] characters. *)
Lemma slice_to_short n s : len s <= n -> slice_to n s = s.
Proof.
  unfold len, slice_to. intros H.
  rewrite firstn_all2 by exact H. apply unchars_chars.
Qed.

End StrFacts.

(** [any_keyword_in] decides [related]. *)
Lemma any_keyword_in_spec keywords line :
  any_keyword_in keywords line = true <-> related keywords line.
Proof.
  unfold any_keyword_in, related, icontains.
  rewrite existsb_exists. split.
  - intros (k & Hin & Hc). exists k. split; [exact Hin|].
    apply StrFacts.contains_spec. exact Hc.
  - intros (k & Hin & Hc). exists k. split; [exact Hin|].
    apply StrFacts.contains_spec. exact Hc.
Qed.

(** A [filter] by a test that decides [P] is the selection by [P]. *)
Lemma filter_selection (P : string -> Prop) (f : string -> bool) lines :
  (forall line, f line = true <-> P line) ->
  selection P lines (List.filter f lines).
Proof.
  intros Hf. induction lines as [|line lines IH]; simpl.
  - constructor.
  - destruct (f line) eqn:E.
    + apply selection_keep; [apply Hf; exact E | exact IH].
    + apply selection_skip; [|exact IH].
      intros HP. apply Hf in HP. congruence.
Qed.

(** The selection by [P] is unique. *)
Lemma selection_unique P lines k1 k2 :
  selection P lines k1 -> selection P lines k2 -> k1 = k2.
Proof.
  intros H1. revert k2.
  induction H1 as [|line lines kept HP _ IH|line lines kept HP _ IH];
    intros k2 H2; inversion H2; subst; try contradiction.
  - reflexivity.
  - f_equal. apply IH. assumption.
  - apply IH. assumption.
Qed.

(* ------------------------------------------------------------------ *)
(** ** Reasoning about runs *)

Lemma extend_start d : extend start d = d.
Proof. destruct d; reflexivity. Qed.

Lemma extend_assoc t d1 d2 : extend (extend t d1) d2 = extend t (extend d1 d2).
Proof. unfold extend; simpl. rewrite <- !app_assoc. reflexivity. Qed.


Lemma framed_ret {A} (a : A) : framed (ret a).
Proof.
  intros t. unfold ret, extend; simpl. rewrite !app_nil_r.
  destruct t; reflexivity.
Qed.

Lemma framed_print s : framed (print s).
Proof.
  intros t. unfold print, extend; simpl. rewrite !app_nil_r. reflexivity.
Qed.

Lemma framed_exists w p : framed (os_path_exists w p).
Proof.
  intros t. unfold os_path_exists, extend; simpl. rewrite !app_nil_r.
  reflexivity.
Qed.

Lemma framed_bind {A B} (m : M A) (k : A -> M B) :
  framed m -> (forall a, framed (k a)) -> framed (bind m k).
Proof.
  intros Hm Hk t. unfold bind.
  rewrite (Hm t). destruct (m start) as [[a|e] d]; simpl.
  - rewrite (Hk a (extend t d)), (Hk a d), extend_assoc. reflexivity.
  - reflexivity.
Qed.

Lemma framed_first_existing w system paths :
  framed (first_existing w system paths).
Proof.
  induction paths as [|path rest IH]; simpl.
  - apply framed_bind; [apply framed_print | intros; apply framed_ret].
  - apply framed_bind; [apply framed_exists|].
    intros [|]; [|exact IH].
    apply framed_bind; [apply framed_print | intros; apply framed_ret].
Qed.

Lemma framed_get_qgis_path w : framed (get_qgis_path w).
Proof.
  unfold get_qgis_path. apply framed_bind.
  - unfold env_path_exists. destruct (environ w !! "QGIS_PATH") as [p|].
    + destruct (Str.truthy p); [apply framed_exists | apply framed_ret].
    + apply framed_ret.
  - intros [|].
    + apply framed_bind; [apply framed_print | intros; apply framed_ret].
    + destruct (possible_paths _).
      * apply framed_first_existing.
      * apply framed_bind; [apply framed_print | intros; apply framed_ret].
Qed.

(** What the candidate walk does, from any trace. *)
Lemma first_existing_run w system paths t :
  exists o ps,
    first_existing w system paths t =
      (Ok o, {| printed := (printed t ++
                  [match o with
                   | Some p => "Found QGIS at: " ++ p
                   | None => "QGIS not found on " ++ system ++ " platform"
                   end%string])%list;
                probed := (probed t ++ ps)%list;
                invoked := invoked t |}) /\
    walk (path_exists w) paths ps o.
Proof.
  revert t. induction paths as [|path rest IH]; intros t.
  - exists None, []. simpl. unfold bind, print, ret; simpl.
    rewrite app_nil_r. split; [reflexivity|]. constructor. constructor.
  - simpl. unfold bind at 1. unfold os_path_exists at 1.
    destruct (Str.truthy path && fs w path) eqn:E.
    + exists (Some path), [path].
      unfold bind, print, ret; simpl. split; [reflexivity|].
      apply (walk_some (path_exists w) [] path rest); [constructor | exact E].
    + match goal with |- context [first_existing w system rest ?t'] =>
        destruct (IH t') as (o & ps & Hrun & Hwalk) end.
      exists o, (path :: ps). rewrite Hrun; simpl.
      rewrite <- app_assoc. split; [reflexivity|].
      assert (Hno : ~ path_exists w path)
        by (unfold path_exists; rewrite E; discriminate).
      inversion Hwalk; subst.
      * constructor. constructor; assumption.
      * apply (walk_some (path_exists w) (path :: before) x after);
          [constructor; assumption | assumption].
Qed.

Lemma walk_found {X} (P : X -> Prop) xs seen x :
  walk P xs seen (Some x) -> P x.
Proof. intros H. inversion H; subst; assumption. Qed.

Lemma possible_paths_recognised system :
  In system recognised <-> exists paths, possible_paths system = Some paths.
Proof.
  unfold possible_paths, recognised. split.
  - intros [<-|[<-|[<-|[]]]]; simpl; eexists; reflexivity.
  - intros [paths H].
    destruct (String.eqb system "windows") eqn:E1;
      [apply String.eqb_eq in E1; subst; simpl; tauto|].
    destruct (String.eqb system "linux") eqn:E2;
      [apply String.eqb_eq in E2; subst; simpl; tauto|].
    destruct (String.eqb system "darwin") eqn:E3;
      [apply String.eqb_eq in E3; subst; simpl; tauto|].
    discriminate.
Qed.


Lemma env_path_exists_run w t :
  env_path_exists w (environ w !! "QGIS_PATH") t =
    (Ok (match environ w !! "QGIS_PATH" with
         | Some p => Str.truthy p && fs w p
         | None => false
         end),
     {| printed := printed t;
        probed := (probed t ++ override_probe w)%list;
        invoked := invoked t |}).
Proof.
  unfold env_path_exists, override_probe.
  destruct (environ w !! "QGIS_PATH") as [p|]; simpl.
  - destruct (Str.truthy p) eqn:E; unfold ret, os_path_exists;
      rewrite ?E, ?app_nil_r; destruct t; reflexivity.
  - unfold ret. rewrite app_nil_r. destruct t; reflexivity.
Qed.

Lemma no_override_false w :
  no_override w ->
  match environ w !! "QGIS_PATH" with
  | Some p => Str.truthy p && fs w p
  | None => false
  end = false.
Proof.
  intros H. destruct (environ w !! "QGIS_PATH") as [p|] eqn:E; [|reflexivity].
  specialize (H p E). unfold path_exists in H.
  destruct (Str.truthy p && fs w p); [contradiction H; reflexivity | reflexivity].
Qed.

(** The resolver when the environment decides. *)
Lemma get_qgis_path_override w t p :
  environ w !! "QGIS_PATH" = Some p -> path_exists w p ->
  get_qgis_path w t =
    (Ok (Some p),
     {| printed := (printed t ++
          [("Using QGIS from environment variable: " ++ p)%string])%list;
        probed := (probed t ++ [p])%list;
        invoked := invoked t |}).
Proof.
  intros Henv Hex. unfold get_qgis_path, bind at 1.
  rewrite env_path_exists_run. unfold override_probe. rewrite Henv.
  unfold path_exists in Hex. rewrite Hex.
  apply andb_prop in Hex as [-> _]. reflexivity.
Qed.

(** The resolver when the environment does not decide. *)
Lemma get_qgis_path_fallback w t :
  no_override w ->
  get_qgis_path w t =
    match possible_paths (Str.lower (platform_system w)) with
    | Some paths =>
        first_existing w (Str.lower (platform_system w)) paths
          {| printed := printed t;
             probed := (probed t ++ override_probe w)%list;
             invoked := invoked t |}
    | None =>
        (Ok None,
         {| printed := (printed t ++
              [("Unsupported platform: " ++
                Str.lower (platform_system w))%string])%list;
            probed := (probed t ++ override_probe w)%list;
            invoked := invoked t |})
    end.
Proof.
  intros Hno. unfold get_qgis_path, bind at 1.
  rewrite env_path_exists_run, (no_override_false w Hno).
  destruct (possible_paths _); reflexivity.
Qed.

Lemma no_override_dec w :
  no_override w \/
  exists p, environ w !! "QGIS_PATH" = Some p /\ path_exists w p.
Proof.
  unfold no_override, path_exists.
  destruct (environ w !! "QGIS_PATH") as [q|]; [|left; discriminate].
  destruct (Str.truthy q && fs w q) eqn:E.
  - right. exists q. split; [reflexivity | exact E].
  - left. intros p [= <-]. rewrite E. discriminate.
Qed.

(** What the resolver does, from any trace: it returns, prints one line,
    calls no subprocess, and a path it returns exists. *)
Lemma get_qgis_path_run w t :
  exists o line ps,
    get_qgis_path w t =
      (Ok o, {| printed := (printed t ++ [line])%list;
                probed := (probed t ++ ps)%list;
                invoked := invoked t |}) /\
    forall p, o = Some p ->
      path_exists w p /\
      (line = "Using QGIS from environment variable: " ++ p \/
       line = "Found QGIS at: " ++ p).
Proof.
  destruct (no_override_dec w) as [Hno|(q & Henv & Hex)].
  - rewrite (get_qgis_path_fallback w t Hno).
    destruct (possible_paths _) as [paths|].
    + match goal with |- context [first_existing w ?s paths ?t'] =>
        destruct (first_existing_run w s paths t') as (o & ps & -> & Hwalk) end.
      eexists o, _, (override_probe w ++ ps)%list. simpl.
      rewrite <- app_assoc. split; [reflexivity|].
      intros p ->. split; [|right; reflexivity].
      exact (walk_found _ _ _ _ Hwalk).
    + eexists None, _, _. split; [reflexivity|]. discriminate.
  - rewrite (get_qgis_path_override w t q Henv Hex).
    eexists (Some q), _, _. split; [reflexivity|].
    intros p [= <-]. split; [exact Hex | left; reflexivity].
Qed.

(** The resolver inside a larger run: its value is the one it has on its
    own. *)
Lemma get_qgis_path_at w t :
  exists o line ps,
    resolves_to w o /\
    get_qgis_path w t =
      (Ok o, {| printed := (printed t ++ [line])%list;
                probed := (probed t ++ ps)%list;
                invoked := invoked t |}) /\
    forall p, o = Some p ->
      Str.truthy p = true /\
      (line = "Using QGIS from environment variable: " ++ p \/
       line = "Found QGIS at: " ++ p).
Proof.
  destruct (get_qgis_path_run w t) as (o & line & ps & Hrun & Hsome).
  exists o, line, ps. split; [|split; [exact Hrun|]].
  - unfold resolves_to, run.
    pose proof (framed_get_qgis_path w t) as Hf. rewrite Hrun in Hf.
    congruence.
  - intros p Hp. destruct (Hsome p Hp) as [Hex Hline]. split; [|exact Hline].
    unfold path_exists in Hex. apply andb_prop in Hex. tauto.
Qed.

(* ------------------------------------------------------------------ *)
(** ** The path resolver *)

(** C5.  If [QGIS_PATH] is set and the path it names exists, [get_qgis_path]
    returns that path at once, in every world (whatever the platform and
    whichever candidate paths exist): the only path it looks at is the one
    from the environment, and the one line it prints names that source. *)
Theorem get_qgis_path_env_override (w : World) (p : string) :
  environ w !! "QGIS_PATH" = Some p ->
  path_exists w p ->
  run (get_qgis_path w) =
    (Ok (Some p),
     {| printed := [("Using QGIS from environment variable: " ++ p)%string];
        probed := [p];
        invoked := [] |}).
Proof.
  intros Henv Hex. unfold run.
  rewrite (get_qgis_path_override w start p Henv Hex). reflexivity.
Qed.

Lemma get_qgis_path_env_override_witness :
  run (get_qgis_path Sample.with_override) =
    (Ok (Some "/opt/custom/qgis_process"),
     {| printed := ["Using QGIS from environment variable: /opt/custom/qgis_process"];
        probed := ["/opt/custom/qgis_process"];
        invoked := [] |}).
Proof.
  apply (get_qgis_path_env_override Sample.with_override
           "/opt/custom/qgis_process").
  - vm_compute. reflexivity.
  - vm_compute. reflexivity.
Defined.

(** C6.  If [QGIS_PATH] is unset, or set to a path that does not exist,
    then on a recognised platform (windows, linux or darwin, as
    [platform.system().lower()] gives it) [get_qgis_path] walks the
    platform's candidate list in order: it returns the first candidate
    that exists, having looked at no candidate after it, or [None] when
    none exists, having looked at them all. *)
Theorem get_qgis_path_platform_fallback (w : World) :
  (environ w !! "QGIS_PATH" = None \/
   exists p, environ w !! "QGIS_PATH" = Some p /\ ~ path_exists w p) ->
  In (Str.lower (platform_system w)) recognised ->
  exists paths seen o,
    possible_paths (Str.lower (platform_system w)) = Some paths /\
    resolves_to w o /\
    probed (snd (run (get_qgis_path w))) = (override_probe w ++ seen)%list /\
    walk (path_exists w) paths seen o.
Proof.
  intros Henv Hrec.
  assert (Hno : no_override w).
  { intros p Hp. destruct Henv as [Hnone|(q & Hq & Hnot)]; congruence. }
  apply possible_paths_recognised in Hrec as [paths Hpaths].
  unfold resolves_to, run. rewrite (get_qgis_path_fallback w start Hno), Hpaths.
  match goal with |- context [first_existing w ?s paths ?t'] =>
    destruct (first_existing_run w s paths t') as (o & seen & -> & Hwalk) end.
  exists paths, seen, o. repeat split; assumption.
Qed.

Lemma get_qgis_path_platform_fallback_witness :
  exists paths seen o,
    possible_paths (Str.lower (platform_system Sample.stale_override))
      = Some paths /\
    resolves_to Sample.stale_override o /\
    probed (snd (run (get_qgis_path Sample.stale_override)))
      = (override_probe Sample.stale_override ++ seen)%list /\
    walk (path_exists Sample.stale_override) paths seen o.
Proof.
  apply (get_qgis_path_platform_fallback Sample.stale_override).
  - right. exists "/gone/qgis_process". split.
    + vm_compute. reflexivity.
    + vm_compute. discriminate.
  - vm_compute. tauto.
Defined.

(** C7.  On a platform other than windows, linux and darwin, when
    [QGIS_PATH] names no existing path, [get_qgis_path] returns [None] and
    looks at no candidate path: the only path it may look at is the one
    [QGIS_PATH] names.  Its whole run is the same in every world with this
    environment and platform, whichever paths exist there. *)
Theorem get_qgis_path_unsupported_platform (w : World) :
  ~ In (Str.lower (platform_system w)) recognised ->
  no_override w ->
  run (get_qgis_path w) =
    (Ok None,
     {| printed := [("Unsupported platform: " ++
                      Str.lower (platform_system w))%string];
        probed := override_probe w;
        invoked := [] |}) /\
  forall w' : World,
    environ w' = environ w ->
    platform_system w' = platform_system w ->
    no_override w' ->
    run (get_qgis_path w') = run (get_qgis_path w).
Proof.
  intros Hrec Hno.
  assert (Hrun : forall v : World,
    environ v = environ w -> platform_system v = platform_system w ->
    no_override v ->
    run (get_qgis_path v) =
      (Ok None,
       {| printed := [("Unsupported platform: " ++
                        Str.lower (platform_system w))%string];
          probed := override_probe w;
          invoked := [] |})).
  { intros v Henv Hsys Hv. unfold run.
    rewrite (get_qgis_path_fallback v start Hv), Hsys.
    destruct (possible_paths (Str.lower (platform_system w))) as [paths|] eqn:E.
    - exfalso. apply Hrec. apply possible_paths_recognised. eauto.
    - unfold override_probe. rewrite Henv. reflexivity. }
  split.
  - apply Hrun; [reflexivity | reflexivity | exact Hno].
  - intros w' Henv Hsys Hno'.
    rewrite (Hrun w' Henv Hsys Hno'), (Hrun w eq_refl eq_refl Hno).
    reflexivity.
Qed.

Lemma get_qgis_path_unsupported_platform_witness :
  run (get_qgis_path Sample.freebsd) =
    (Ok None,
     {| printed := ["Unsupported platform: freebsd"];
        probed := ["/gone/qgis_process"];
        invoked := [] |}) /\
  forall w' : World,
    environ w' = environ Sample.freebsd ->
    platform_system w' = platform_system Sample.freebsd ->
    no_override w' ->
    run (get_qgis_path w') = run (get_qgis_path Sample.freebsd).
Proof.
  apply (get_qgis_path_unsupported_platform Sample.freebsd).
  - vm_compute. intuition discriminate.
  - intros p Hp. vm_compute in Hp. injection Hp as <-.
    vm_compute. discriminate.
Defined.

(* ------------------------------------------------------------------ *)
(** ** No exception leaves the probes *)

Section NeverRaises.

Lemma never_raises_ret {A} (a : A) : never_raises (ret a).
Proof. intros t. exists a. reflexivity. Qed.

Lemma never_raises_print s : never_raises (print s).
Proof. intros t. exists tt. reflexivity. Qed.

Lemma never_raises_exists w p : never_raises (os_path_exists w p).
Proof. intros t. eexists. reflexivity. Qed.

Lemma never_raises_bind {A B} (m : M A) (k : A -> M B) :
  never_raises m -> (forall a, never_raises (k a)) -> never_raises (bind m k).
Proof.
  intros Hm Hk t. unfold bind. destruct (Hm t) as [a Ha].
  destruct (m t) as [r t']. simpl in Ha. subst r. apply Hk.
Qed.

Lemma never_raises_for_each {X} (xs : list X) (body : X -> M unit) :
  (forall x, never_raises (body x)) -> never_raises (for_each xs body).
Proof.
  intros Hbody. induction xs as [|x xs IH]; simpl.
  - apply never_raises_ret.
  - apply never_raises_bind; [apply Hbody | intros _; exact IH].
Qed.

(** A clause list whose last resort takes every exception lets none out. *)
Lemma never_raises_dispatch {A} (cs : list (clause A)) (e : exn) :
  Forall (fun c => never_raises (handler c e)) cs ->
  Exists (fun c => catches c e = true) cs ->
  never_raises (dispatch cs e).
Proof.
  intros Hall Hex. induction Hall as [|c cs Hc Hall IH]; simpl.
  - inversion Hex.
  - destruct (catches c e) eqn:E; [exact Hc|].
    apply IH. inversion Hex; subst; [congruence | assumption].
Qed.

(** A [try] is safe when its clauses are, whatever its body does. *)
Lemma never_raises_try {A} (body : M A) (cs : list (clause A)) :
  (forall e, never_raises (dispatch cs e)) -> never_raises (try_except body cs).
Proof.
  intros Hcs t. unfold try_except.
  destruct (body t) as [[a|e] t'].
  - exists a. reflexivity.
  - apply Hcs.
Qed.

Lemma never_raises_get_qgis_path w : never_raises (get_qgis_path w).
Proof.
  intros t. destruct (get_qgis_path_run w t) as (o & line & ps & -> & _).
  exists o. reflexivity.
Qed.

End NeverRaises.

Create HintDb safe discriminated.
#[local] Hint Resolve never_raises_ret never_raises_print never_raises_exists
  never_raises_get_qgis_path : safe.

(** Goes through a computation built from [bind], loops and branches. *)
Ltac safe_step :=
  match goal with
  | |- never_raises (bind _ _) => apply never_raises_bind; [|intros ?]
  | |- never_raises (for_each _ _) => apply never_raises_for_each; intros ?
  | |- never_raises (try_except _ _) => apply never_raises_try; intros ?
  | |- never_raises (dispatch _ _) =>
      apply never_raises_dispatch;
      [repeat constructor; simpl | repeat (first [left; reflexivity | right])]
  | |- never_raises (if ?b then _ else _) => destruct b
  | |- never_raises (match ?x with _ => _ end) => destruct x
  | |- never_raises (let '(_, _) := ?x in _) => destruct x
  | |- never_raises _ => solve [auto with safe]
  end.


Lemma never_raises_report_algorithms p lines :
  never_raises (report_algorithms p lines).
Proof.
  unfold report_algorithms, print_numbered. repeat safe_step.
Qed.


Lemma never_raises_info_with w p info : never_raises (info_with w p info).
Proof. unfold info_with. repeat safe_step. Qed.


Lemma never_raises_get_qgis_info w : never_raises (get_qgis_info w).
Proof.
  unfold get_qgis_info. repeat safe_step. apply never_raises_info_with.
Qed.

(* ------------------------------------------------------------------ *)
(** ** The timeouts of the subprocess calls *)

Section AddsOnly.

Context {X : Type} (part : Trace -> list X) (P : X -> Prop).

Lemma adds_only_quiet {A} (m : M A) :
  (forall t, part (snd (m t)) = part t) -> adds_only part P m.
Proof.
  intros H t. exists []. rewrite H, app_nil_r. split; [reflexivity | constructor].
Qed.

Lemma adds_only_ret {A} (a : A) : adds_only part P (ret a).
Proof. apply adds_only_quiet. reflexivity. Qed.

Lemma adds_only_bind {A B} (m : M A) (k : A -> M B) :
  adds_only part P m -> (forall a, adds_only part P (k a)) ->
  adds_only part P (bind m k).
Proof.
  intros Hm Hk t. unfold bind. destruct (Hm t) as (d & Hd & HPd).
  destruct (m t) as [[a|e] t']; simpl in Hd.
  - destruct (Hk a t') as (d' & Hd' & HPd').
    exists (d ++ d')%list. rewrite Hd', Hd, app_assoc.
    split; [reflexivity | apply Forall_app; split; assumption].
  - exists d. split; assumption.
Qed.

Lemma adds_only_for_each {Y} (ys : list Y) (body : Y -> M unit) :
  (forall y, adds_only part P (body y)) -> adds_only part P (for_each ys body).
Proof.
  intros Hbody. induction ys as [|y ys IH]; simpl.
  - apply adds_only_ret.
  - apply adds_only_bind; [apply Hbody | intros _; exact IH].
Qed.

Lemma adds_only_dispatch {A} (cs : list (clause A)) (e : exn) :
  Forall (fun c => adds_only part P (handler c e)) cs ->
  adds_only part P (dispatch cs e).
Proof.
  intros Hall. induction Hall as [|c cs Hc Hall IH]; simpl.
  - apply adds_only_quiet. reflexivity.
  - destruct (catches c e); assumption.
Qed.

Lemma adds_only_try {A} (body : M A) (cs : list (clause A)) :
  adds_only part P body -> (forall e, adds_only part P (dispatch cs e)) ->
  adds_only part P (try_except body cs).
Proof.
  intros Hbody Hcs t. unfold try_except. destruct (Hbody t) as (d & Hd & HPd).
  destruct (body t) as [[a|e] t']; simpl in Hd.
  - exists d. split; assumption.
  - destruct (Hcs e t') as (d' & Hd' & HPd').
    exists (d ++ d')%list. rewrite Hd', Hd, app_assoc.
    split; [reflexivity | apply Forall_app; split; assumption].
Qed.

(** After [t], what has been added satisfies [P] if what was there did. *)
Lemma adds_only_after {A} (m : M A) t :
  adds_only part P m -> Forall P (part t) -> Forall P (part (snd (m t))).
Proof.
  intros H Ht. destruct (H t) as (d & -> & HPd).
  apply Forall_app. split; assumption.
Qed.

End AddsOnly.

Section Primitives.

Lemma invokes_only_print P s : invokes_only P (print s).
Proof. apply adds_only_quiet. reflexivity. Qed.

Lemma invokes_only_get_qgis_path P w : invokes_only P (get_qgis_path w).
Proof.
  apply adds_only_quiet. intros t.
  destruct (get_qgis_path_run w t) as (o & line & ps & -> & _). reflexivity.
Qed.

Lemma invokes_only_subprocess_run (P : invocation -> Prop) w args timeout :
  P (Invoke args timeout) -> invokes_only P (subprocess_run w args timeout).
Proof.
  intros HP t. exists [Invoke args timeout]. unfold subprocess_run.
  split; [|repeat constructor; exact HP].
  destruct (proc w _ args timeout); reflexivity.
Qed.

Lemma prints_only_print (P : string -> Prop) s : P s -> prints_only P (print s).
Proof. intros HP t. exists [s]. split; [reflexivity | repeat constructor; exact HP]. Qed.

Lemma prints_only_subprocess_run P w args timeout :
  prints_only P (subprocess_run w args timeout).
Proof.
  apply adds_only_quiet. intros t. unfold subprocess_run.
  destruct (proc w _ args timeout); reflexivity.
Qed.

(** From [start], everything invoked satisfies [P]. *)
Lemma invokes_only_run {A} P (m : M A) :
  invokes_only P m -> Forall P (invoked (snd (run m))).
Proof. intros H. apply (adds_only_after invoked P m start H). constructor. Qed.

End Primitives.

Create HintDb calls discriminated.
#[local] Hint Resolve adds_only_ret invokes_only_print
  invokes_only_get_qgis_path prints_only_subprocess_run : calls.

(** Goes through a computation built from [bind], loops, branches and
    [try]; what is left is the side condition of each primitive. *)
Ltac adds_step :=
  match goal with
  | |- adds_only _ _ (bind _ _) => apply adds_only_bind; [|intros ?]
  | |- adds_only _ _ (for_each _ _) => apply adds_only_for_each; intros ?
  | |- adds_only _ _ (try_except _ _) => apply adds_only_try; [|intros ?]
  | |- adds_only _ _ (dispatch _ _) =>
      apply adds_only_dispatch; repeat constructor; simpl
  | |- adds_only invoked _ (subprocess_run _ _ _) =>
      apply invokes_only_subprocess_run
  | |- adds_only printed _ (print _) => apply prints_only_print
  | |- adds_only _ _ (if ?b then _ else _) => destruct b
  | |- adds_only _ _ (match ?x with _ => _ end) => destruct x
  | |- adds_only _ _ (let '(_, _) := ?x in _) => destruct x
  | |- adds_only _ _ _ => solve [auto with calls]
  end.

Lemma check_qgis_algorithms_invokes w :
  invokes_only within_spec_timeout (check_qgis_algorithms w).
Proof.
  unfold check_qgis_algorithms, report_not_found, check_with, check_clauses,
    check_listed, check_version, report_algorithms, print_numbered.
  repeat adds_step.
  - exists VersionCheck. split; reflexivity.
  - exists Listing. split; reflexivity.
Qed.

Lemma test_qgis_algorithm_invokes w name :
  invokes_only (fun inv => kind_of inv = Some HelpCheck /\ inv_timeout inv = 30%Z)
               (test_qgis_algorithm w name).
Proof.
  unfold test_qgis_algorithm, test_with. repeat adds_step. split; reflexivity.
Qed.

Lemma get_qgis_info_invokes w :
  invokes_only quick_timeout (get_qgis_info w).
Proof.
  unfold get_qgis_info, info_with, info_version. repeat adds_step.
  - left. split; reflexivity.
  - right. split; reflexivity.
Qed.

(** C2, as the code has it.  Every call of the binary carries a timeout.
    In [check_qgis_algorithms] it is 30 seconds for the version check and
    60 seconds for the listing, and in [test_qgis_algorithm] 30 seconds for
    the help check, as specified.  In [get_qgis_info], which only makes a
    quick test, it is 30 seconds for the listing and 10 seconds for the
    version check. *)
Theorem invocation_timeouts (w : World) (algorithm_name : string) :
  Forall within_spec_timeout (invoked (snd (run (check_qgis_algorithms w)))) /\
  Forall (fun inv => kind_of inv = Some HelpCheck /\ inv_timeout inv = 30%Z)
         (invoked (snd (run (test_qgis_algorithm w algorithm_name)))) /\
  Forall quick_timeout (invoked (snd (run (get_qgis_info w)))).
Proof.
  split; [|split]; apply invokes_only_run.
  - apply check_qgis_algorithms_invokes.
  - apply test_qgis_algorithm_invokes.
  - apply get_qgis_info_invokes.
Qed.

(** C2, as stated, fails: on a Linux machine with a working binary
    [get_qgis_info] lists the algorithms with a timeout of 30 seconds, not
    60, and asks for the version with 10 seconds, not 30. *)
Lemma get_qgis_info_timeouts_differ :
  invoked (snd (run (get_qgis_info (Sample.linux_box Sample.listing5)))) =
    [ Invoke ["/usr/local/bin/qgis_process"; "list"] 30;
      Invoke ["/usr/local/bin/qgis_process"; "--version"] 10 ] /\
  ~ Forall within_spec_timeout
      (invoked (snd (run (get_qgis_info (Sample.linux_box Sample.listing5))))).
Proof.
  assert (E : invoked (snd (run (get_qgis_info (Sample.linux_box Sample.listing5)))) =
    [ Invoke ["/usr/local/bin/qgis_process"; "list"] 30;
      Invoke ["/usr/local/bin/qgis_process"; "--version"] 10 ])
    by (vm_compute; reflexivity).
  split; [exact E|]. rewrite E. intros H.
  inversion H as [|inv rest [k [Hk Ht]] _]; subst.
  vm_compute in Hk. injection Hk as <-. discriminate Ht.
Qed.

(* ------------------------------------------------------------------ *)
(** ** The operations once the resolver has answered *)

Lemma resolved_truthy w p : resolves_to w (Some p) -> Str.truthy p = true.
Proof.
  intros H. destruct (get_qgis_path_at w start) as (o & line & ps & Ho & _ & Hp).
  unfold resolves_to in *. rewrite H in Ho. injection Ho as <-.
  apply (Hp p eq_refl).
Qed.

(** The resolver leaves a trace without subprocess calls, and its line
    reports no failure. *)
Lemma get_qgis_path_then w t o :
  resolves_to w o ->
  exists t', get_qgis_path w t = (Ok o, t') /\
    invoked t' = invoked t /\
    (o <> None -> Forall calm (printed t) -> Forall calm (printed t')).
Proof.
  intros H. destruct (get_qgis_path_at w t) as (o' & line & ps & Ho & Hrun & Hp).
  unfold resolves_to in *. rewrite H in Ho. injection Ho as <-.
  eexists. split; [exact Hrun|]. split; [reflexivity|].
  intros Hsome Hcalm. simpl. apply Forall_app. split; [exact Hcalm|].
  destruct o as [p|]; [|congruence].
  destruct (Hp p eq_refl) as [_ [-> | ->]]; repeat constructor.
Qed.

Lemma get_qgis_info_resolved w p :
  resolves_to w (Some p) ->
  exists t, invoked t = [] /\
    run (get_qgis_info w) = info_with w p (initial_info w (Some p)) t.
Proof.
  intros H. destruct (get_qgis_path_then w start _ H) as (t & Hrun & Hinv & _).
  exists t. split; [exact Hinv|].
  unfold run, get_qgis_info, bind. rewrite Hrun, (resolved_truthy w p H).
  reflexivity.
Qed.

Lemma get_qgis_info_absent w :
  resolves_to w None ->
  exists t, invoked t = [] /\
    run (get_qgis_info w) = (Ok (initial_info w None), t).
Proof.
  intros H. destruct (get_qgis_path_then w start _ H) as (t & Hrun & Hinv & _).
  exists t. split; [exact Hinv|].
  unfold run, get_qgis_info, bind. rewrite Hrun. reflexivity.
Qed.

Lemma test_qgis_algorithm_resolved w p name :
  resolves_to w (Some p) ->
  exists t, invoked t = [] /\
    run (test_qgis_algorithm w name) = test_with w p name t.
Proof.
  intros H. destruct (get_qgis_path_then w start _ H) as (t & Hrun & Hinv & _).
  exists t. split; [exact Hinv|].
  unfold run, test_qgis_algorithm, bind. rewrite Hrun, (resolved_truthy w p H).
  reflexivity.
Qed.

Lemma check_qgis_algorithms_resolved w p :
  resolves_to w (Some p) ->
  exists t, invoked t = [] /\ Forall calm (printed t) /\
    run (check_qgis_algorithms w) = check_with w p t.
Proof.
  intros H. unfold run, check_qgis_algorithms.
  repeat (unfold bind at 1; simpl).
  match goal with |- context [get_qgis_path w ?t0] =>
    destruct (get_qgis_path_then w t0 _ H) as (t & Hrun & Hinv & Hcalm) end.
  exists t. split; [exact Hinv|]. split.
  - apply Hcalm; [discriminate|]. simpl. repeat constructor.
  - unfold bind. rewrite Hrun, (resolved_truthy w p H). reflexivity.
Qed.

(* ------------------------------------------------------------------ *)
(** ** The summary record *)

(** C9.  Whenever the resolver returns [None], the record of
    [get_qgis_info] has [qgis_found] false, has none of the fields that
    need a call of the binary ([qgis_working], [total_algorithms],
    [tile_algorithms], [qgis_version]), and has
    [manual_method_available] true; no subprocess is called. *)
Theorem get_qgis_info_absent_record (w : World) :
  resolves_to w None ->
  exists info : gmap string value,
    fst (run (get_qgis_info w)) = Ok info /\
    info !! "qgis_found" = Some (VBool false) /\
    info !! "qgis_working" = None /\
    info !! "total_algorithms" = None /\
    info !! "tile_algorithms" = None /\
    info !! "qgis_version" = None /\
    info !! "manual_method_available" = Some (VBool true) /\
    invoked (snd (run (get_qgis_info w))) = [].
Proof.
  intros H. destruct (get_qgis_info_absent w H) as (t & Hinv & ->).
  exists (initial_info w None). simpl. repeat split; assumption.
Qed.

Lemma get_qgis_info_absent_record_witness :
  exists info : gmap string value,
    fst (run (get_qgis_info Sample.bare_linux)) = Ok info /\
    info !! "qgis_found" = Some (VBool false) /\
    info !! "qgis_working" = None /\
    info !! "total_algorithms" = None /\
    info !! "tile_algorithms" = None /\
    info !! "qgis_version" = None /\
    info !! "manual_method_available" = Some (VBool true) /\
    invoked (snd (run (get_qgis_info Sample.bare_linux))) = [].
Proof.
  apply (get_qgis_info_absent_record Sample.bare_linux).
  vm_compute. reflexivity.
Defined.

(* ------------------------------------------------------------------ *)
(** ** The single-algorithm lookup *)

(** The three ways the [try] of [test_qgis_algorithm] ends. *)
Lemma test_with_run w p name t :
  invoked t = [] ->
  fst (test_with w p name t) =
    Ok (let common (b : bool) :=
          <["available" := VBool b]>
            (<["algorithm" := VStr name]> (∅ : gmap string value)) in
        match proc w 0 [p; "help"; name] 30%Z with
        | Returns r =>
            if (returncode r =? 0)%Z then
              <["qgis_path" := VStr p]>
                (<["help" := VStr (Str.slice_to 1000 (stdout r))]> (common true))
            else
              <["qgis_path" := VStr p]>
                (<["error" := VStr (stderr r)]> (common false))
        | Raises e =>
            <["qgis_path" := VStr p]>
              (<["error" := VStr (exn_str e)]> (common false))
        end).
Proof.
  intros Hinv. unfold test_with, try_except, bind, subprocess_run.
  rewrite Hinv. simpl List.length.
  destruct (proc w 0 [p; "help"; name] 30%Z) as [r|e]; simpl.
  - destruct (returncode r =? 0)%Z; reflexivity.
  - reflexivity.
Qed.

(** C3, as the code has it.  When the resolver returns a path, the lookup
    of any algorithm name returns a record with the name, with [available]
    true exactly when the [help <name>] call returns with exit code zero,
    and with either [help], the first 1000 characters of the help text (all
    of it when it is shorter), on success, or [error], the error text, on
    failure: the standard error of a call that exits with another code, the
    message of an exception that the call raises.  When the resolver
    returns [None], the record holds the error text "QGIS not found" and
    nothing else. *)
Theorem test_qgis_algorithm_record (w : World) (algorithm_name : string) :
  (forall p, resolves_to w (Some p) ->
   exists (rec : gmap string value) (available : bool),
     fst (run (test_qgis_algorithm w algorithm_name)) = Ok rec /\
     rec !! "algorithm" = Some (VStr algorithm_name) /\
     rec !! "available" = Some (VBool available) /\
     (available = true <->
        exists r, proc w 0 [p; "help"; algorithm_name] 30%Z = Returns r /\
                  returncode r = 0%Z) /\
     (forall r, proc w 0 [p; "help"; algorithm_name] 30%Z = Returns r ->
        returncode r = 0%Z ->
        exists h rest,
          rec !! "help" = Some (VStr h) /\ rec !! "error" = None /\
          Str.len h <= 1000 /\ stdout r = h ++ rest /\
          (Str.len (stdout r) <= 1000 -> h = stdout r)) /\
     (forall r, proc w 0 [p; "help"; algorithm_name] 30%Z = Returns r ->
        returncode r <> 0%Z ->
        rec !! "error" = Some (VStr (stderr r)) /\ rec !! "help" = None) /\
     (forall e, proc w 0 [p; "help"; algorithm_name] 30%Z = Raises e ->
        rec !! "error" = Some (VStr (exn_str e)) /\ rec !! "help" = None)) /\
  (resolves_to w None ->
   fst (run (test_qgis_algorithm w algorithm_name)) =
     Ok {[ "error" := VStr "QGIS not found" ]}).
Proof.
  split.
  2:{ intros H.
      destruct (get_qgis_path_then w start _ H) as (t & Hrun & _).
      unfold run, test_qgis_algorithm, bind. rewrite Hrun. reflexivity. }
  intros p H.
  destruct (test_qgis_algorithm_resolved w p algorithm_name H) as (t & Hinv & ->).
  rewrite (test_with_run w p algorithm_name t Hinv).
  destruct (proc w 0 [p; "help"; algorithm_name] 30%Z) as [r|e].
  - destruct (returncode r =? 0)%Z eqn:E.
    + apply Z.eqb_eq in E.
      eexists _, true. split; [reflexivity|].
      split; [reflexivity|]. split; [reflexivity|]. split; [|split; [|split]].
      * split; [intros _; exists r; split; [reflexivity | exact E] | reflexivity].
      * intros r' [= <-] _.
        destruct (StrFacts.slice_to_prefix 1000 (stdout r)) as [rest Hrest].
        exists (Str.slice_to 1000 (stdout r)), rest.
        split; [reflexivity|]. split; [reflexivity|].
        split; [apply StrFacts.slice_to_length|]. split; [exact Hrest|].
        apply StrFacts.slice_to_short.
      * intros r' [= <-] Hne. contradiction.
      * intros e [=].
    + apply Z.eqb_neq in E.
      eexists _, false. split; [reflexivity|].
      split; [reflexivity|]. split; [reflexivity|]. split; [|split; [|split]].
      * split; [discriminate|]. intros (r' & [= <-] & E'). contradiction.
      * intros r' [= <-] E'. contradiction.
      * intros r' [= <-] _. split; reflexivity.
      * intros e [=].
  - eexists _, false. split; [reflexivity|].
    split; [reflexivity|]. split; [reflexivity|]. split; [|split; [|split]].
    + split; [discriminate|]. intros (r' & [=] & _).
    + intros r' [=].
    + intros r' [=].
    + intros e' [= <-]. split; reflexivity.
Qed.

Lemma test_qgis_algorithm_record_witness :
  exists (rec : gmap string value) (available : bool),
    fst (run (test_qgis_algorithm (Sample.linux_box Sample.listing5)
                                  "native:buffer")) = Ok rec /\
    rec !! "algorithm" = Some (VStr "native:buffer") /\
    rec !! "available" = Some (VBool available) /\
    (available = true <->
       exists r, proc (Sample.linux_box Sample.listing5) 0
                   ["/usr/local/bin/qgis_process"; "help"; "native:buffer"] 30%Z
                 = Returns r /\ returncode r = 0%Z) /\
    (forall r, proc (Sample.linux_box Sample.listing5) 0
                 ["/usr/local/bin/qgis_process"; "help"; "native:buffer"] 30%Z
               = Returns r ->
       returncode r = 0%Z ->
       exists h rest,
         rec !! "help" = Some (VStr h) /\ rec !! "error" = None /\
         Str.len h <= 1000 /\ stdout r = h ++ rest /\
         (Str.len (stdout r) <= 1000 -> h = stdout r)) /\
    (forall r, proc (Sample.linux_box Sample.listing5) 0
                 ["/usr/local/bin/qgis_process"; "help"; "native:buffer"] 30%Z
               = Returns r ->
       returncode r <> 0%Z ->
       rec !! "error" = Some (VStr (stderr r)) /\ rec !! "help" = None) /\
    (forall e, proc (Sample.linux_box Sample.listing5) 0
                 ["/usr/local/bin/qgis_process"; "help"; "native:buffer"] 30%Z
               = Raises e ->
       rec !! "error" = Some (VStr (exn_str e)) /\ rec !! "help" = None).
Proof.
  apply (proj1 (test_qgis_algorithm_record (Sample.linux_box Sample.listing5)
                  "native:buffer") "/usr/local/bin/qgis_process").
  vm_compute. reflexivity.
Defined.

(** C3, as stated, fails: on a machine without QGIS the lookup returns a
    record that holds an error text only, without the algorithm name and
    without the availability flag. *)
Lemma test_qgis_algorithm_without_qgis :
  exists rec : gmap string value,
    fst (run (test_qgis_algorithm Sample.bare_linux "native:buffer")) = Ok rec /\
    rec !! "algorithm" = None /\
    rec !! "available" = None /\
    rec !! "error" = Some (VStr "QGIS not found").
Proof.
  eexists. split; [vm_compute; reflexivity|].
  repeat split; vm_compute; reflexivity.
Qed.

(* ------------------------------------------------------------------ *)
(** ** The classifier *)

(** The listing branch of [get_qgis_info]: what the record holds when the
    listing call returns with exit code zero. *)
Lemma info_with_listed w p info t r :
  invoked t = [] ->
  proc w 0 [p; "list"] 30%Z = Returns r ->
  returncode r = 0%Z ->
  exists version : string,
    fst (info_with w p info t) =
      Ok (<["qgis_version" := VStr version]>
         (<["qgis_working" := VBool true]>
         (<["tile_algorithms" :=
              VList (info_tile_algorithms (clean_lines (stdout r)))]>
         (<["total_algorithms" :=
              VInt (Z.of_nat (List.length (clean_lines (stdout r))))]> info)))) /\
    (version = "Available" \/
     exists v, proc w 1 [p; "--version"] 10%Z = Returns v /\
               returncode v = 0%Z /\ version = Str.strip (stdout v)).
Proof.
  intros Hinv Hlist Hzero.
  unfold info_with, try_except, bind at 1, subprocess_run at 1.
  rewrite Hinv. simpl List.length. rewrite Hlist, Hzero. simpl.
  unfold info_version, try_except, bind, subprocess_run. simpl.
  destruct (proc w 1 [p; "--version"] 10%Z) as [v|e]; simpl.
  - destruct (returncode v =? 0)%Z eqn:E; simpl.
    + eexists. split.
      * rewrite insert_insert_eq. reflexivity.
      * right. exists v. apply Z.eqb_eq in E. repeat split; assumption.
    + exists "Available". split; [reflexivity | left; reflexivity].
  - exists "Available". split; [reflexivity | left; reflexivity].
Qed.

(** C1, as the code has it.  For every list of lines the filter of
    [check_qgis_algorithms] returns exactly the lines that contain, letter
    case aside, one of tile, qtiles, xyz, tms, raster, in the order of the
    input; on the five sample lines it keeps qtiles_generate, raster_calc
    and xyz_export, and the line count is 5.  The list that [get_qgis_info]
    puts in its record is selected with the keywords tile, qtiles, xyz,
    tms only (not raster), and holds at most the first five of the
    selected lines. *)
Theorem tile_filter_selects (w : World) (p : string) (r : CompletedProcess)
    (lines : list string) :
  selection (related ["tile"; "qtiles"; "xyz"; "tms"; "raster"])
            lines (tile_filter lines) /\
  (tile_filter ["buffer"; "qtiles_generate"; "raster_calc"; "dissolve";
                "xyz_export"]
     = ["qtiles_generate"; "raster_calc"; "xyz_export"] /\
   List.length ["buffer"; "qtiles_generate"; "raster_calc"; "dissolve";
                "xyz_export"] = 5) /\
  (resolves_to w (Some p) ->
   proc w 0 [p; "list"] 30%Z = Returns r ->
   returncode r = 0%Z ->
   exists (info : gmap string value) (selected : list string),
     fst (run (get_qgis_info w)) = Ok info /\
     selection (related ["tile"; "qtiles"; "xyz"; "tms"])
               (clean_lines (stdout r)) selected /\
     info !! "tile_algorithms" = Some (VList (firstn 5 selected)) /\
     info !! "total_algorithms" =
       Some (VInt (Z.of_nat (List.length (clean_lines (stdout r)))))).
Proof.
  split; [|split].
  - apply filter_selection. intros line. apply any_keyword_in_spec.
  - split; vm_compute; reflexivity.
  - intros Hres Hlist Hzero.
    destruct (get_qgis_info_resolved w p Hres) as (t & Hinv & ->).
    destruct (info_with_listed w p (initial_info w (Some p)) t r Hinv Hlist Hzero)
      as (version & -> & _).
    eexists _, (List.filter (any_keyword_in info_tile_keywords)
                            (clean_lines (stdout r))).
    split; [reflexivity|]. split; [|split; reflexivity].
    apply filter_selection. intros line. apply any_keyword_in_spec.
Qed.

Lemma tile_filter_selects_witness :
  exists (info : gmap string value) (selected : list string),
    fst (run (get_qgis_info (Sample.linux_box Sample.listing5))) = Ok info /\
    selection (related ["tile"; "qtiles"; "xyz"; "tms"])
              (clean_lines (stdout (Completed 0 Sample.listing5 ""))) selected /\
    info !! "tile_algorithms" = Some (VList (firstn 5 selected)) /\
    info !! "total_algorithms" =
      Some (VInt (Z.of_nat (List.length
        (clean_lines (stdout (Completed 0 Sample.listing5 "")))))).
Proof.
  apply (tile_filter_selects (Sample.linux_box Sample.listing5)
           "/usr/local/bin/qgis_process" (Completed 0 Sample.listing5 "") []).
  - vm_compute. reflexivity.
  - vm_compute. reflexivity.
  - reflexivity.
Defined.

(** C1, as stated, fails for the record of [get_qgis_info]: when the
    binary lists raster_calc and six tile lines, the filter with the five
    keywords selects all seven lines, and the record holds five of them,
    without raster_calc. *)
Lemma get_qgis_info_tile_list_differs :
  exists info : gmap string value,
    fst (run (get_qgis_info (Sample.linux_box Sample.listing7))) = Ok info /\
    info !! "tile_algorithms" =
      Some (VList ["tile_a"; "tile_b"; "tile_c"; "tile_d"; "tile_e"]) /\
    tile_filter (clean_lines Sample.listing7) =
      ["raster_calc"; "tile_a"; "tile_b"; "tile_c"; "tile_d"; "tile_e";
       "tile_f"] /\
    info !! "tile_algorithms" <>
      Some (VList (tile_filter (clean_lines Sample.listing7))).
Proof.
  eexists. split; [vm_compute; reflexivity|].
  split; [vm_compute; reflexivity|].
  split; [vm_compute; reflexivity|].
  vm_compute. discriminate.
Qed.

Lemma category_count_app keywords l1 l2 :
  category_count keywords (l1 ++ l2)%list =
  category_count keywords l1 + category_count keywords l2.
Proof.
  unfold category_count.
  rewrite List.filter_app, List.map_app, list_sum_app. reflexivity.
Qed.

Lemma category_count_cons keywords line lines :
  category_count keywords (line :: lines) =
  (if any_keyword_in keywords line then 1 else 0) +
  category_count keywords lines.
Proof.
  unfold category_count. simpl.
  destruct (any_keyword_in keywords line); reflexivity.
Qed.

Lemma category_counts_in category keywords lines :
  In (category, keywords) categories ->
  In (category, category_count keywords lines) (category_counts lines).
Proof.
  intros H. unfold category_counts.
  apply (in_map (fun '(category, keywords) =>
                   (category, category_count keywords lines)) _ _ H).
Qed.

(** C10.  Counting by category is not exclusive.  In every list of
    lines, a line adds one to the count of each category one of whose
    keywords it contains, whatever it adds to the other categories; so a
    list that holds the line "raster export tool" has a Raster count of at
    least 1 and an Export count of at least 1. *)
Theorem category_counts_not_exclusive (before after : list string)
    (line : string) :
  (forall category keywords,
     In (category, keywords) categories ->
     In (category,
         category_count keywords before
         + (if any_keyword_in keywords line then 1 else 0)
         + category_count keywords after)
        (category_counts (before ++ line :: after)%list)) /\
  (forall category keywords,
     In (category, keywords) categories ->
     related keywords line ->
     exists count, In (category, count)
                      (category_counts (before ++ line :: after)%list) /\
                   1 <= count) /\
  (line = "raster export tool" ->
   exists raster export,
     In ("Raster", raster) (category_counts (before ++ line :: after)%list) /\
     In ("Export", export) (category_counts (before ++ line :: after)%list) /\
     1 <= raster /\ 1 <= export).
Proof.
  assert (Hcount : forall category keywords,
     In (category, keywords) categories ->
     In (category,
         category_count keywords before
         + (if any_keyword_in keywords line then 1 else 0)
         + category_count keywords after)
        (category_counts (before ++ line :: after)%list)).
  { intros category keywords Hin.
    rewrite <- Nat.add_assoc, <- category_count_cons, <- category_count_app.
    apply category_counts_in. exact Hin. }
  assert (Hone : forall category keywords,
     In (category, keywords) categories ->
     related keywords line ->
     exists count, In (category, count)
                      (category_counts (before ++ line :: after)%list) /\
                   1 <= count).
  { intros category keywords Hin Hrel.
    eexists. split; [apply (Hcount category keywords Hin)|].
    apply any_keyword_in_spec in Hrel. rewrite Hrel. lia. }
  split; [exact Hcount|]. split; [exact Hone|].
  intros ->.
  destruct (Hone "Raster" ["raster"; "dem"; "slope"; "aspect"])
    as (raster & Hr & Hr1).
  { simpl. tauto. }
  { apply any_keyword_in_spec. vm_compute. reflexivity. }
  destruct (Hone "Export" ["export"; "save"; "write"; "output"])
    as (export & He & He1).
  { simpl. tauto. }
  { apply any_keyword_in_spec. vm_compute. reflexivity. }
  exists raster, export. repeat split; assumption.
Qed.

Lemma category_counts_not_exclusive_witness :
  exists raster export,
    In ("Raster", raster)
       (category_counts (["buffer"] ++ "raster export tool" :: ["dissolve"])%list) /\
    In ("Export", export)
       (category_counts (["buffer"] ++ "raster export tool" :: ["dissolve"])%list) /\
    1 <= raster /\ 1 <= export.
Proof.
  apply (category_counts_not_exclusive ["buffer"] ["dissolve"]
           "raster export tool").
  reflexivity.
Defined.

(* ------------------------------------------------------------------ *)
(** ** Timeouts *)

(** The version check of [check_qgis_algorithms] always comes back, after
    one call, and reports no failure. *)
Lemma check_version_run w p t :
  exists t',
    check_version w p t = (Ok tt, t') /\
    invoked t' = (invoked t ++ [Invoke [p; "--version"] 30])%list /\
    (Forall calm (printed t) -> Forall calm (printed t')).
Proof.
  unfold check_version, try_except, bind, subprocess_run.
  destruct (proc w _ [p; "--version"] 30%Z) as [r|e]; simpl.
  - destruct (returncode r =? 0)%Z; simpl.
    + eexists. split; [reflexivity|]. split; [reflexivity|]. simpl.
      intros H. apply Forall_app. split; [exact H|]. repeat constructor.
    + eexists. split; [reflexivity|]. split; [reflexivity|]. trivial.
  - eexists. split; [reflexivity|]. split; [reflexivity|]. trivial.
Qed.

Lemma bind_value {A B} (m : M A) (k : A -> M B) (b : B) t :
  never_raises m -> (forall a t', fst (k a t') = Ok b) ->
  fst (bind m k t) = Ok b.
Proof.
  intros Hm Hk. unfold bind. destruct (Hm t) as [a Ha].
  destruct (m t) as [r t']. simpl in Ha. subst r. apply Hk.
Qed.

Lemma report_algorithms_true p lines t :
  fst (report_algorithms p lines t) = Ok true.
Proof.
  unfold report_algorithms, print_numbered. revert t.
  repeat (intros ?; cbv beta zeta;
          apply bind_value; [repeat safe_step | intros _]).
  reflexivity.
Qed.

Lemma report_algorithms_calm p lines :
  prints_only calm (report_algorithms p lines).
Proof.
  unfold report_algorithms, print_numbered.
  repeat adds_step; reflexivity.
Qed.

(** [check_with] up to its listing call: two lines, the version check,
    and then the second call of the run. *)
Lemma check_with_until_list w p t :
  invoked t = [] -> Forall calm (printed t) ->
  exists t1,
    Forall calm (printed t1) /\
    invoked t1 = [Invoke [p; "--version"] 30; Invoke [p; "list"] 60] /\
    check_with w p t =
      try_except
        (fun _ =>
           match proc w 1 [p; "list"] 60%Z with
           | Returns r => check_listed p r t1
           | Raises e => (Raise e, t1)
           end)
        (check_clauses p) t.
Proof.
  intros Hinv Hcalm.
  destruct (check_version_run w p
              {| printed := ((printed t ++ [("✅ QGIS found at: " ++ p)%string])
                             ++ ["Checking QGIS version and algorithms..."])%list;
                 probed := probed t; invoked := invoked t |})
    as (t1 & Hrun & Hinv1 & Hcalm1).
  simpl in Hinv1, Hcalm1. rewrite Hinv in Hinv1. simpl in Hinv1.
  eexists {| printed := printed t1; probed := probed t1; invoked := _ |}.
  split; [|split; [reflexivity|]].
  - apply Hcalm1. apply Forall_app. split; [|repeat constructor].
    apply Forall_app. split; [exact Hcalm | repeat constructor].
  - unfold check_with, try_except.
    unfold bind at 1. simpl. unfold bind at 1. simpl.
    unfold bind at 1. rewrite Hrun.
    unfold bind at 1, subprocess_run at 1. rewrite Hinv1. simpl.
    destruct (proc w 1 [p; "list"] 60%Z); reflexivity.
Qed.

(** The listing of [check_qgis_algorithms] times out. *)
Lemma check_with_list_timeout w p t e :
  invoked t = [] -> Forall calm (printed t) ->
  proc w 1 [p; "list"] 60%Z = Raises e -> exn_cls e = TimeoutExpired ->
  exists before t',
    check_with w p t = (Ok false, t') /\
    printed t' =
      (before ++
       ["❌ QGIS command timed out (60 seconds)";
        "This might indicate QGIS is installed but not working properly"])%list /\
    Forall calm before.
Proof.
  intros Hinv Hcalm Hlist Hcls.
  destruct (check_with_until_list w p t Hinv Hcalm) as (t1 & Hcalm1 & _ & ->).
  unfold try_except. rewrite Hlist. simpl.
  unfold isinstance. rewrite Hcls.
  exists (printed t1). eexists. split; [reflexivity|].
  split; [simpl; rewrite <- app_assoc; reflexivity | exact Hcalm1].
Qed.

(** The listing of [check_qgis_algorithms] succeeds. *)
Lemma check_with_listed w p t r :
  invoked t = [] -> Forall calm (printed t) ->
  proc w 1 [p; "list"] 60%Z = Returns r -> returncode r = 0%Z ->
  exists t',
    check_with w p t = (Ok true, t') /\ Forall calm (printed t').
Proof.
  intros Hinv Hcalm Hlist Hzero.
  destruct (check_with_until_list w p t Hinv Hcalm) as (t1 & Hcalm1 & _ & ->).
  unfold try_except, check_listed. rewrite Hlist, Hzero. simpl.
  match goal with |- context [report_algorithms p ?ls ?t2] =>
    pose proof (report_algorithms_true p ls t2) as Htrue;
    pose proof (adds_only_after printed calm _ t2
                  (report_algorithms_calm p ls)) as Hafter;
    destruct (report_algorithms p ls t2) as [b t3] end.
  simpl in *. subst b. exists t3. split; [reflexivity|].
  apply Hafter. exact Hcalm1.
Qed.

(** The listing of [get_qgis_info] raises. *)
Lemma info_with_raised w p info t e :
  invoked t = [] ->
  proc w 0 [p; "list"] 30%Z = Raises e ->
  fst (info_with w p info t) =
    Ok (<["error" := VStr (match exn_cls e with
                           | TimeoutExpired => "QGIS command timed out"
                           | _ => exn_str e
                           end)]>
        (<["qgis_working" := VBool false]> info)).
Proof.
  intros Hinv Hlist.
  unfold info_with, try_except, bind at 1, subprocess_run at 1.
  rewrite Hinv. simpl List.length. rewrite Hlist. simpl.
  unfold isinstance. destruct (exn_cls e); reflexivity.
Qed.

(** C8, as the code has it.  Whenever the listing call exceeds its
    timeout, the operation reports the timeout and not the generic
    failure: [check_qgis_algorithms] returns [False] and the last two
    lines it prints are the timeout report, the only lines of the run that
    carry the failure mark; [get_qgis_info] sets [qgis_working] to false
    and [error] to the timeout message, whatever the text of the
    exception.  A timeout of the optional version check is not reported:
    with a listing that succeeds, [check_qgis_algorithms] returns [True]
    and prints no failure line, and [get_qgis_info] records no error. *)
Theorem timeout_reported (w : World) (p : string) (e : exn) :
  resolves_to w (Some p) ->
  exn_cls e = TimeoutExpired ->
  (proc w 1 [p; "list"] 60%Z = Raises e ->
   exists before,
     fst (run (check_qgis_algorithms w)) = Ok false /\
     printed (snd (run (check_qgis_algorithms w))) =
       (before ++
        ["❌ QGIS command timed out (60 seconds)";
         "This might indicate QGIS is installed but not working properly"])%list /\
     Forall calm before) /\
  (proc w 0 [p; "list"] 30%Z = Raises e ->
   exists info : gmap string value,
     fst (run (get_qgis_info w)) = Ok info /\
     info !! "qgis_working" = Some (VBool false) /\
     info !! "error" = Some (VStr "QGIS command timed out")) /\
  (proc w 0 [p; "--version"] 30%Z = Raises e ->
   forall r, proc w 1 [p; "list"] 60%Z = Returns r -> returncode r = 0%Z ->
     fst (run (check_qgis_algorithms w)) = Ok true /\
     Forall calm (printed (snd (run (check_qgis_algorithms w))))) /\
  (proc w 1 [p; "--version"] 10%Z = Raises e ->
   forall r, proc w 0 [p; "list"] 30%Z = Returns r -> returncode r = 0%Z ->
     exists info : gmap string value,
       fst (run (get_qgis_info w)) = Ok info /\
       info !! "qgis_working" = Some (VBool true) /\
       info !! "qgis_version" = Some (VStr "Available") /\
       info !! "error" = None).
Proof.
  intros Hres Hcls.
  destruct (check_qgis_algorithms_resolved w p Hres)
    as (t & Hinv & Hcalm & Hcheck).
  destruct (get_qgis_info_resolved w p Hres) as (ti & Hinvi & Hinfo).
  split; [|split; [|split]].
  - intros Hlist. rewrite Hcheck.
    destruct (check_with_list_timeout w p t e Hinv Hcalm Hlist Hcls)
      as (before & t' & -> & Hprinted & Hbefore).
    exists before. repeat split; assumption.
  - intros Hlist. rewrite Hinfo.
    rewrite (info_with_raised w p _ ti e Hinvi Hlist), Hcls.
    eexists. split; [reflexivity|]. split; reflexivity.
  - intros _ r Hlist Hzero. rewrite Hcheck.
    destruct (check_with_listed w p t r Hinv Hcalm Hlist Hzero)
      as (t' & -> & Hcalm').
    split; [reflexivity | exact Hcalm'].
  - intros Hversion r Hlist Hzero. rewrite Hinfo.
    destruct (info_with_listed w p (initial_info w (Some p)) ti r
                Hinvi Hlist Hzero) as (version & -> & [->|(v & Hv & _)]).
    + eexists. split; [reflexivity|]. repeat split; reflexivity.
    + congruence.
Qed.

Lemma timeout_reported_witness :
  (exists before,
     fst (run (check_qgis_algorithms Sample.slow_list)) = Ok false /\
     printed (snd (run (check_qgis_algorithms Sample.slow_list))) =
       (before ++
        ["❌ QGIS command timed out (60 seconds)";
         "This might indicate QGIS is installed but not working properly"])%list /\
     Forall calm before) /\
  (exists info : gmap string value,
     fst (run (get_qgis_info Sample.slow_list)) = Ok info /\
     info !! "qgis_working" = Some (VBool false) /\
     info !! "error" = Some (VStr "QGIS command timed out")).
Proof.
  destruct (timeout_reported Sample.slow_list "/usr/bin/qgis_process"
              (Exn TimeoutExpired "Command timed out"))
    as (Hcheck & Hinfo & _).
  - vm_compute. reflexivity.
  - reflexivity.
  - split.
    + apply Hcheck. vm_compute. reflexivity.
    + apply Hinfo. vm_compute. reflexivity.
Defined.

(** C8, as stated, fails for the version check: when that call exceeds
    its timeout and the listing succeeds, [check_qgis_algorithms] returns
    [True] without any failure line, and the record of [get_qgis_info]
    says that QGIS works and holds no error. *)
Lemma version_timeout_not_reported :
  proc Sample.slow_version 0 ["/usr/bin/qgis_process"; "--version"] 30%Z
    = Raises (Exn TimeoutExpired "Command timed out") /\
  fst (run (check_qgis_algorithms Sample.slow_version)) = Ok true /\
  existsb failure_line
    (printed (snd (run (check_qgis_algorithms Sample.slow_version)))) = false /\
  proc Sample.slow_version 1 ["/usr/bin/qgis_process"; "--version"] 10%Z
    = Raises (Exn TimeoutExpired "Command timed out") /\
  exists info : gmap string value,
    fst (run (get_qgis_info Sample.slow_version)) = Ok info /\
    info !! "qgis_working" = Some (VBool true) /\
    info !! "error" = None.
Proof.
  split; [vm_compute; reflexivity|].
  split; [vm_compute; reflexivity|].
  split; [vm_compute; reflexivity|].
  split; [vm_compute; reflexivity|].
  eexists. split; [vm_compute; reflexivity|].
  split; vm_compute; reflexivity.
Qed.

(* ------------------------------------------------------------------ *)
(** ** Failures become values *)

Lemma check_qgis_algorithms_absent w :
  resolves_to w None -> fst (run (check_qgis_algorithms w)) = Ok false.
Proof.
  intros H. unfold run, check_qgis_algorithms.
  repeat (unfold bind at 1; simpl).
  match goal with |- context [get_qgis_path w ?t0] =>
    destruct (get_qgis_path_then w t0 _ H) as (t & Hrun & _) end.
  rewrite Hrun. reflexivity.
Qed.


(** The listing of [get_qgis_info] exits with another code than zero. *)
Lemma info_with_exit w p info t r :
  invoked t = [] ->
  proc w 0 [p; "list"] 30%Z = Returns r -> returncode r <> 0%Z ->
  fst (info_with w p info t) =
    Ok (<["error" := VStr (str_or (stderr r) "QGIS command failed")]>
        (<["qgis_working" := VBool false]> info)).
Proof.
  intros Hinv Hlist Hne. apply Z.eqb_neq in Hne.
  unfold info_with, try_except, bind at 1, subprocess_run at 1.
  rewrite Hinv. simpl List.length. rewrite Hlist. simpl. rewrite Hne.
  reflexivity.
Qed.


(* ------------------------------------------------------------------ *)
(** ** A standard output that may refuse a line *)

Section Same.

Lemma same_refl {A} (m : M A) : same m m.
Proof. intros t. reflexivity. Qed.

Lemma same_bind {A B} (m m' : M A) (k k' : A -> M B) :
  same m m' -> (forall a, same (k a) (k' a)) -> same (bind m k) (bind m' k').
Proof.
  intros Hm Hk t. unfold bind. rewrite (Hm t).
  destruct (m' t) as [[a|e] t']; [apply Hk | reflexivity].
Qed.

Lemma same_for_each {X} (xs : list X) (body body' : X -> M unit) :
  (forall x, same (body x) (body' x)) ->
  same (for_each xs body) (for_each xs body').
Proof.
  intros Hbody. induction xs as [|x xs IH]; simpl.
  - apply same_refl.
  - apply same_bind; [apply Hbody | intros _; exact IH].
Qed.

Lemma same_try {A} (body body' : M A) (cs cs' : list (clause A)) :
  same body body' -> (forall e, same (dispatch cs e) (dispatch cs' e)) ->
  same (try_except body cs) (try_except body' cs').
Proof.
  intros Hbody Hcs t. unfold try_except. rewrite (Hbody t).
  destruct (body' t) as [[a|e] t']; [reflexivity | apply Hcs].
Qed.

End Same.

(** Goes through two computations of the same shape. *)
Ltac same_step :=
  cbv zeta;
  match goal with
  | |- same ?m ?m => apply same_refl
  | |- same (bind _ _) (bind _ _) => apply same_bind; [|intros ?]
  | |- same (for_each _ _) (for_each _ _) => apply same_for_each; intros ?
  | |- same (try_except _ _) (try_except _ _) => apply same_try; [|intros ?]
  | |- same (dispatch _ _) (dispatch _ _) => cbn [dispatch catches handler]
  | |- same (if ?b then _ else _) (if ?b then _ else _) => destruct b
  | |- same (match ?x with _ => _ end) (match ?x with _ => _ end) => destruct x
  | H : forall s, same (_ s) (_ s) |- same _ _ => apply H
  end.

(** The script does the same on two standard outputs on which [print]
    does the same. *)
Section SameOutput.

Variables pr pr' : string -> M unit.
Hypothesis Hpr : forall s, same (pr s) (pr' s).

Lemma same_first_existing w system paths :
  same (Script.first_existing pr w system paths)
       (Script.first_existing pr' w system paths).
Proof.
  induction paths as [|path rest IH]; simpl; repeat same_step. exact IH.
Qed.

Lemma same_get_qgis_path w :
  same (Script.get_qgis_path pr w) (Script.get_qgis_path pr' w).
Proof.
  unfold Script.get_qgis_path. repeat same_step. apply same_first_existing.
Qed.

Lemma same_report_algorithms p lines :
  same (Script.report_algorithms pr p lines)
       (Script.report_algorithms pr' p lines).
Proof.
  unfold Script.report_algorithms, Script.print_numbered. repeat same_step.
Qed.

Lemma same_check_with w p :
  same (Script.check_with pr w p) (Script.check_with pr' w p).
Proof.
  unfold Script.check_with, Script.check_version, Script.check_listed,
    Script.check_clauses.
  repeat same_step; apply same_report_algorithms.
Qed.

Lemma same_check_qgis_algorithms w :
  same (Script.check_qgis_algorithms pr w) (Script.check_qgis_algorithms pr' w).
Proof.
  unfold Script.check_qgis_algorithms, Script.report_not_found.
  repeat same_step;
    first [apply same_get_qgis_path | apply same_check_with].
Qed.

Lemma same_get_qgis_info w :
  same (Script.get_qgis_info pr w) (Script.get_qgis_info pr' w).
Proof.
  unfold Script.get_qgis_info. repeat same_step. apply same_get_qgis_path.
Qed.

Lemma same_main w : same (Script.main pr w) (Script.main pr' w).
Proof.
  unfold Script.main, Script.print_summary, Script.print_verdict,
    Script.print_item.
  repeat same_step;
    first [apply same_check_qgis_algorithms | apply same_get_qgis_info].
Qed.

End SameOutput.

Lemma print_on_accepting c :
  accepts_all c -> forall s, same (print_on c s) (print s).
Proof. intros Hc s t. unfold print_on. rewrite (Hc s). reflexivity. Qed.




(* ------------------------------------------------------------------ *)
(** ** The verdict and the calls of the probes, from any trace *)

Lemma invokes_nothing {A} (m : M A) t :
  invokes_only (fun _ => False) m -> invoked (snd (m t)) = invoked t.
Proof.
  intros H. destruct (H t) as (d & -> & Hd).
  destruct d as [|x d]; [apply app_nil_r | inversion Hd; contradiction].
Qed.

Lemma report_algorithms_quiet p lines :
  invokes_only (fun _ => False) (report_algorithms p lines).
Proof. unfold report_algorithms, print_numbered. repeat adds_step. Qed.

(** What [check_listed] returns and that it calls nothing. *)
Lemma check_listed_run p r t :
  fst (check_listed p r t) = Ok (returncode r =? 0)%Z /\
  invoked (snd (check_listed p r t)) = invoked t.
Proof.
  unfold check_listed. destruct (returncode r =? 0)%Z; simpl.
  - split; [apply report_algorithms_true|].
    apply invokes_nothing, report_algorithms_quiet.
  - split; reflexivity.
Qed.

(** Each clause of [check_qgis_algorithms] returns [False] and calls
    nothing. *)
Lemma check_clauses_run p e t :
  fst (dispatch (check_clauses p) e t) = Ok false /\
  invoked (snd (dispatch (check_clauses p) e t)) = invoked t.
Proof.
  unfold check_clauses. simpl. unfold isinstance.
  destruct (exn_cls e); split; reflexivity.
Qed.

(** The version check of [check_qgis_algorithms] comes back after one
    call and at most one line. *)
Lemma check_version_prints w p t :
  exists t' d,
    check_version w p t = (Ok tt, t') /\
    invoked t' = (invoked t ++ [Invoke [p; "--version"] 30])%list /\
    printed t' = (printed t ++ d)%list /\ List.length d <= 1.
Proof.
  unfold check_version, try_except, bind, subprocess_run.
  destruct (proc w _ [p; "--version"] 30%Z) as [r|e]; simpl.
  - destruct (returncode r =? 0)%Z; simpl.
    + eexists _, [_]. split; [reflexivity|]. split; [reflexivity|].
      split; [reflexivity | simpl; lia].
    + eexists _, []. split; [reflexivity|]. split; [reflexivity|]. simpl.
      rewrite app_nil_r. split; [reflexivity | lia].
  - eexists _, []. split; [reflexivity|]. split; [reflexivity|]. simpl.
    rewrite app_nil_r. split; [reflexivity | lia].
Qed.

(** The [try] of [check_qgis_algorithms] from any trace, up to the
    listing call: two calls and at most three lines. *)
Lemma check_with_steps w p t :
  exists t1,
    invoked t1 =
      (invoked t ++ [Invoke [p; "--version"] 30; Invoke [p; "list"] 60])%list /\
    (exists d, printed t1 = (printed t ++ d)%list /\ List.length d <= 3) /\
    check_with w p t =
      match proc w (S (List.length (invoked t))) [p; "list"] 60%Z with
      | Returns r => check_listed p r t1
      | Raises e => dispatch (check_clauses p) e t1
      end.
Proof.
  destruct (check_version_prints w p
              {| printed := ((printed t ++ [("✅ QGIS found at: " ++ p)%string])
                             ++ ["Checking QGIS version and algorithms..."])%list;
                 probed := probed t; invoked := invoked t |})
    as (t1 & d & Hrun & Hinv1 & Hd & Hlen).
  simpl in Hinv1, Hd.
  eexists {| printed := printed t1; probed := probed t1; invoked := _ |}.
  split; [reflexivity|]. split.
  { exists ([("✅ QGIS found at: " ++ p)%string;
             "Checking QGIS version and algorithms..."] ++ d)%list.
    simpl. rewrite Hd, <- !app_assoc. split; [reflexivity | simpl; lia]. }
  unfold check_with, try_except.
  unfold bind at 1. simpl. unfold bind at 1. simpl.
  unfold bind at 1. rewrite Hrun.
  unfold bind at 1, subprocess_run at 1. rewrite Hinv1.
  rewrite length_app, Nat.add_1_r, <- app_assoc. simpl app.
  destruct (proc w (S (List.length (invoked t))) [p; "list"] 60%Z) as [r|e].
  - match goal with |- context [check_listed p r ?t2] =>
      destruct (check_listed_run p r t2) as [Hv _];
      destruct (check_listed p r t2) as [[b|e] t3] end;
      [reflexivity | discriminate].
  - reflexivity.
Qed.

(** The [try] of [check_qgis_algorithms] from any trace: two calls, and
    the value the listing decides. *)
Lemma check_with_run w p t :
  fst (check_with w p t) =
    Ok (listing_succeeds w (S (List.length (invoked t))) p 60) /\
  invoked (snd (check_with w p t)) =
    (invoked t ++ [Invoke [p; "--version"] 30; Invoke [p; "list"] 60])%list.
Proof.
  destruct (check_with_steps w p t) as (t1 & Hinv1 & _ & ->).
  unfold listing_succeeds.
  destruct (proc w (S (List.length (invoked t))) [p; "list"] 60%Z) as [r|e].
  - destruct (check_listed_run p r t1) as [Hv Hi]. rewrite Hv, Hi.
    split; [reflexivity | exact Hinv1].
  - destruct (check_clauses_run p e t1) as [Hv Hi]. rewrite Hv, Hi.
    split; [reflexivity | exact Hinv1].
Qed.

Lemma report_not_found_run t :
  fst (report_not_found t) = Ok false /\
  invoked (snd (report_not_found t)) = invoked t.
Proof. split; reflexivity. Qed.

(** [check_qgis_algorithms] from any trace. *)
Lemma check_qgis_algorithms_run w t o :
  resolves_to w o ->
  fst (check_qgis_algorithms w t) =
    Ok (match o with
        | Some p => listing_succeeds w (S (List.length (invoked t))) p 60
        | None => false
        end) /\
  invoked (snd (check_qgis_algorithms w t)) = (invoked t ++ check_calls o)%list.
Proof.
  intros H. unfold check_qgis_algorithms.
  repeat (unfold bind at 1; simpl).
  match goal with |- context [get_qgis_path w ?t0] =>
    destruct (get_qgis_path_then w t0 _ H) as (t1 & Hrun & Hinv & _) end.
  rewrite Hrun. simpl in Hinv. destruct o as [p|].
  - rewrite (resolved_truthy w p H).
    destruct (check_with_run w p t1) as [Hv Hi]. rewrite Hinv in Hv, Hi.
    split; assumption.
  - destruct (report_not_found_run t1) as [Hv Hi].
    split; [exact Hv|]. rewrite Hi, Hinv. simpl. rewrite app_nil_r. reflexivity.
Qed.

(** The calls of the [try] of [get_qgis_info], from any trace. *)
Lemma info_with_calls w p info t :
  invoked (snd (info_with w p info t)) =
    (invoked t ++ info_calls w (List.length (invoked t)) (Some p))%list.
Proof.
  unfold info_with, info_calls, listing_succeeds, try_except.
  unfold bind at 1, subprocess_run at 1.
  destruct (proc w (List.length (invoked t)) [p; "list"] 30%Z) as [r|e]; simpl.
  - destruct (returncode r =? 0)%Z; simpl; [|reflexivity].
    unfold info_version, try_except, bind, subprocess_run. simpl.
    destruct (proc w _ [p; "--version"] 10%Z) as [v|e]; simpl.
    + destruct (returncode v =? 0)%Z; simpl; rewrite <- app_assoc; reflexivity.
    + rewrite <- app_assoc. reflexivity.
  - unfold isinstance. destruct (exn_cls e); reflexivity.
Qed.

Lemma get_qgis_info_calls w t o :
  resolves_to w o ->
  invoked (snd (get_qgis_info w t)) =
    (invoked t ++ info_calls w (List.length (invoked t)) o)%list.
Proof.
  intros H. destruct (get_qgis_path_then w t _ H) as (t1 & Hrun & Hinv & _).
  unfold get_qgis_info, bind. rewrite Hrun. destruct o as [p|].
  - rewrite (resolved_truthy w p H), info_with_calls, Hinv. reflexivity.
  - simpl. rewrite Hinv, app_nil_r. reflexivity.
Qed.

Lemma test_qgis_algorithm_calls w name t o :
  resolves_to w o ->
  invoked (snd (test_qgis_algorithm w name t)) =
    (invoked t ++ match o with
                  | Some p => [Invoke [p; "help"; name] 30]
                  | None => []
                  end)%list.
Proof.
  intros H. destruct (get_qgis_path_then w t _ H) as (t1 & Hrun & Hinv & _).
  unfold test_qgis_algorithm, bind at 1. rewrite Hrun. destruct o as [p|].
  - rewrite (resolved_truthy w p H).
    unfold test_with, try_except, bind, subprocess_run. rewrite Hinv.
    destruct (proc w _ [p; "help"; name] 30%Z) as [r|e]; simpl.
    + destruct (returncode r =? 0)%Z; reflexivity.
    + reflexivity.
  - simpl. rewrite Hinv, app_nil_r. reflexivity.
Qed.

Lemma resolves_somewhere w : exists o, resolves_to w o.
Proof.
  destruct (get_qgis_path_at w start) as (o & _ & _ & H & _). eauto.
Qed.

Lemma resolves_unique w o1 o2 : resolves_to w o1 -> resolves_to w o2 -> o1 = o2.
Proof. unfold resolves_to. congruence. Qed.

(* ------------------------------------------------------------------ *)
(** ** What [check_qgis_algorithms] answers *)

(** X1.  [check_qgis_algorithms] returns [True] exactly when the resolver
    finds a binary and the listing, the second call of the run, returns
    with exit code zero; in every other case it returns [False]. *)
Theorem check_qgis_algorithms_verdict (w : World) :
  exists b : bool,
    fst (run (check_qgis_algorithms w)) = Ok b /\
    (b = true <->
     exists p r, resolves_to w (Some p) /\
                 proc w 1 [p; "list"] 60%Z = Returns r /\
                 returncode r = 0%Z).
Proof.
  destruct (resolves_somewhere w) as [o Ho].
  destruct (check_qgis_algorithms_run w start o Ho) as [Hv _].
  eexists. split; [exact Hv|]. simpl. unfold listing_succeeds.
  destruct o as [p|].
  - destruct (proc w 1 [p; "list"] 60%Z) as [r|e] eqn:E.
    + rewrite Z.eqb_eq. split.
      * intros Hz. exists p, r. repeat split; assumption.
      * intros (p' & r' & Hp' & Hr' & Hz).
        assert (Some p' = Some p) as [= ->] by (eapply resolves_unique; eauto).
        congruence.
    + split; [discriminate|].
      intros (p' & r' & Hp' & Hr' & _).
      assert (Some p' = Some p) as [= ->] by (eapply resolves_unique; eauto).
      congruence.
  - split; [discriminate|].
    intros (p' & _ & Hp' & _).
    assert (Some p' = None) by (eapply resolves_unique; eauto). discriminate.
Qed.

(** X2.  The three operations call the binary in a fixed pattern.
    [check_qgis_algorithms] makes no call without a resolved path and
    otherwise exactly two: the version check, then the listing, whatever
    the version check did.  [get_qgis_info] calls the listing, and the
    version check only after a listing that returned with exit code zero.
    [test_qgis_algorithm] makes the one call [help <name>], with the name
    as its own argument. *)
Theorem call_sequences (w : World) (algorithm_name : string) :
  exists o : option string,
    resolves_to w o /\
    invoked (snd (run (check_qgis_algorithms w))) =
      match o with
      | Some p => [Invoke [p; "--version"] 30; Invoke [p; "list"] 60]
      | None => []
      end /\
    invoked (snd (run (get_qgis_info w))) =
      match o with
      | Some p =>
          Invoke [p; "list"] 30 ::
          (if listing_succeeds w 0 p 30 then [Invoke [p; "--version"] 10]
           else [])
      | None => []
      end /\
    invoked (snd (run (test_qgis_algorithm w algorithm_name))) =
      match o with
      | Some p => [Invoke [p; "help"; algorithm_name] 30]
      | None => []
      end.
Proof.
  destruct (resolves_somewhere w) as [o Ho]. exists o.
  split; [exact Ho|]. split; [|split].
  - destruct (check_qgis_algorithms_run w start o Ho) as [_ Hi]. exact Hi.
  - exact (get_qgis_info_calls w start o Ho).
  - exact (test_qgis_algorithm_calls w algorithm_name start o Ho).
Qed.

Lemma check_listed_failed_line p r t :
  (returncode r =? 0)%Z = false ->
  existsb failure_line (printed (snd (check_listed p r t))) = true.
Proof.
  intros E. unfold check_listed. rewrite E. simpl.
  rewrite <- app_assoc, existsb_app. simpl. apply orb_true_r.
Qed.

Lemma check_clauses_failed_line p e t :
  existsb failure_line (printed (snd (dispatch (check_clauses p) e t))) = true.
Proof.
  unfold check_clauses. simpl. unfold isinstance.
  destruct (exn_cls e); simpl; rewrite <- ?app_assoc, existsb_app; simpl;
    apply orb_true_r.
Qed.

Lemma calm_no_failure_line lines :
  Forall calm lines -> existsb failure_line lines = false.
Proof.
  induction 1 as [|s lines Hs _ IH]; simpl; [reflexivity|].
  unfold calm in Hs. rewrite Hs, IH. reflexivity.
Qed.

(** X3.  On a standard output that accepts every line, the calls of
    [print] that [check_qgis_algorithms] makes agree with the value it
    returns: in a run that returns [True] no call of [print] has a text
    that starts with the failure mark, and in a run that returns [False]
    at least one has.  (The text of one call may hold several lines; the
    mark is looked for at the start of the text.) *)
Theorem failure_mark_matches_result (w : World) :
  exists b : bool,
    fst (run (check_qgis_algorithms w)) = Ok b /\
    existsb failure_line (printed (snd (run (check_qgis_algorithms w))))
      = negb b.
Proof.
  destruct (resolves_somewhere w) as [[p|] Ho].
  - destruct (check_qgis_algorithms_resolved w p Ho)
      as (t & Hinv & Hcalm & ->).
    destruct (check_with_steps w p t) as (t1 & _ & _ & Hsteps).
    rewrite Hinv in Hsteps. simpl in Hsteps.
    destruct (proc w 1 [p; "list"] 60%Z) as [r|e] eqn:Hlist.
    + destruct (returncode r =? 0)%Z eqn:E.
      * apply Z.eqb_eq in E.
        destruct (check_with_listed w p t r Hinv Hcalm Hlist E)
          as (t' & -> & Hcalm').
        exists true. split; [reflexivity|].
        apply calm_no_failure_line. exact Hcalm'.
      * rewrite Hsteps. exists false.
        destruct (check_listed_run p r t1) as [Hv _]. rewrite E in Hv.
        split; [exact Hv|]. apply check_listed_failed_line. exact E.
    + rewrite Hsteps. exists false.
      destruct (check_clauses_run p e t1) as [Hv _].
      split; [exact Hv|]. apply check_clauses_failed_line.
  - exists false. split; [apply check_qgis_algorithms_absent; exact Ho|].
    unfold run, check_qgis_algorithms.
    repeat (unfold bind at 1; simpl).
    match goal with |- context [get_qgis_path w ?t0] =>
      destruct (get_qgis_path_then w t0 _ Ho) as (t & -> & _) end.
    simpl. rewrite <- !app_assoc, existsb_app. simpl. apply orb_true_r.
Qed.

(* ------------------------------------------------------------------ *)
(** ** The entry point *)

(** A computation that neither raises nor calls the binary. *)
Lemma quiet_run {A} (m : M A) t :
  never_raises m -> invokes_only (fun _ => False) m ->
  exists a t', m t = (Ok a, t') /\ invoked t' = invoked t.
Proof.
  intros Hsafe Hquiet. destruct (Hsafe t) as [a Ha].
  pose proof (invokes_nothing m t Hquiet) as Hi.
  destruct (m t) as [r t']. simpl in *. subst r. eauto.
Qed.

Lemma never_raises_print_item item : never_raises (print_item item).
Proof. unfold print_item. repeat safe_step. Qed.

Lemma print_item_quiet item : invokes_only (fun _ => False) (print_item item).
Proof. unfold print_item. repeat adds_step. Qed.

(** The summary of [main] from any trace: it comes back, and its calls
    are those of [get_qgis_info]. *)
Lemma print_summary_run w t o :
  resolves_to w o ->
  exists t',
    print_summary w t = (Ok tt, t') /\
    invoked t' = (invoked t ++ info_calls w (List.length (invoked t)) o)%list.
Proof.
  intros Ho. unfold print_summary.
  repeat (unfold bind at 1; simpl).
  match goal with |- context [get_qgis_info w ?t0] =>
    pose proof (get_qgis_info_calls w t0 o Ho) as Hcalls;
    destruct (never_raises_get_qgis_info w t0) as [info Hinfo];
    destruct (get_qgis_info w t0) as [r t1] end.
  simpl in Hcalls, Hinfo. subst r.
  destruct (quiet_run (for_each (items info) print_item) t1)
    as ([] & t2 & -> & Hi).
  - apply never_raises_for_each. intros item. apply never_raises_print_item.
  - apply adds_only_for_each. intros item. apply print_item_quiet.
  - eexists. split; [reflexivity|]. simpl. rewrite Hi. exact Hcalls.
Qed.

(** The verdict always comes back. *)
Lemma print_verdict_run b t : exists t', print_verdict b t = (Ok tt, t').
Proof. destruct b; eexists; reflexivity. Qed.

(** [main] as a whole: the check, the summary, the verdict. *)
Lemma main_run w o :
  resolves_to w o ->
  exists b t t',
    fst (run (check_qgis_algorithms w)) = Ok b /\
    invoked t =
      (check_calls o ++ info_calls w (List.length (check_calls o)) o)%list /\
    print_verdict b t = (Ok tt, t') /\
    run (main w) = (Ok b, t').
Proof.
  intros Ho.
  destruct (check_qgis_algorithms_run w start o Ho) as [Hv0 _].
  simpl in Hv0. eexists. 
  cut (exists t t',
         invoked t =
           (check_calls o ++ info_calls w (List.length (check_calls o)) o)%list /\
         print_verdict (match o with
                        | Some p => listing_succeeds w 1 p 60
                        | None => false
                        end) t = (Ok tt, t') /\
         main w start = (Ok (match o with
                             | Some p => listing_succeeds w 1 p 60
                             | None => false
                             end), t')).
  { intros (t & t' & Hi & Hverdict & Hmain). exists t, t'.
    split; [exact Hv0|]. split; [exact Hi|]. split; [exact Hverdict|].
    exact Hmain. }
  unfold main.
  unfold bind at 1. simpl. unfold bind at 1. simpl. unfold bind at 1.
  match goal with |- context [check_qgis_algorithms w ?t0] =>
    destruct (check_qgis_algorithms_run w t0 o Ho) as [Hv Hi];
    destruct (check_qgis_algorithms w t0) as [r t1] end.
  simpl in Hv, Hi. subst r.
  unfold bind at 1.
  destruct (print_summary_run w t1 o Ho) as (t2 & -> & Hi2).
  rewrite Hi in Hi2.
  match goal with |- context [print_verdict ?b _] =>
    destruct (print_verdict_run b t2) as [t3 Hverdict] end.
  exists t2, t3. split; [exact Hi2|]. split; [exact Hverdict|].
  unfold bind. rewrite Hverdict. reflexivity.
Qed.

(** X4.  On a standard output that accepts every line, [main] returns
    what [check_qgis_algorithms] returns: the summary that follows can
    neither change the result nor raise. *)
Theorem main_returns_check (c : Console) (w : World) :
  accepts_all c ->
  exists b : bool,
    fst (run (main_on c w)) = Ok b /\
    fst (run (check_qgis_algorithms_on c w)) = Ok b.
Proof.
  intros Hc. unfold run.
  rewrite (same_main _ _ (print_on_accepting c Hc) w start).
  rewrite (same_check_qgis_algorithms _ _ (print_on_accepting c Hc) w start).
  destruct (resolves_somewhere w) as [o Ho].
  destruct (main_run w o Ho) as (b & t & t' & Hcheck & _ & _ & Hmain).
  exists b. unfold run in Hmain, Hcheck. rewrite Hmain.
  split; [reflexivity | exact Hcheck].
Qed.

Lemma main_returns_check_witness :
  exists b : bool,
    fst (run (main_on Consoles.accepting (Sample.linux_box Sample.listing5)))
      = Ok b /\
    fst (run (check_qgis_algorithms_on Consoles.accepting
              (Sample.linux_box Sample.listing5))) = Ok b.
Proof.
  apply (main_returns_check Consoles.accepting
           (Sample.linux_box Sample.listing5)).
  intros s. reflexivity.
Defined.

(** X5.  [main] probes the binary twice: its calls are those of
    [check_qgis_algorithms] followed by those of [get_qgis_info], so with a
    resolved path the listing runs a second time, as the third call of the
    run, and a second version check follows only when that listing
    returned with exit code zero.  Without a resolved path [main] makes no
    call. *)
Theorem main_call_sequence (w : World) :
  exists o : option string,
    resolves_to w o /\
    invoked (snd (run (main w))) =
      match o with
      | Some p =>
          [Invoke [p; "--version"] 30; Invoke [p; "list"] 60;
           Invoke [p; "list"] 30] ++
          (if listing_succeeds w 2 p 30 then [Invoke [p; "--version"] 10]
           else [])
      | None => []
      end%list.
Proof.
  destruct (resolves_somewhere w) as [o Ho]. exists o. split; [exact Ho|].
  destruct (main_run w o Ho) as (b & t & t' & _ & Hi & Hverdict & ->).
  assert (Hsame : invoked t' = invoked t).
  { revert Hverdict. unfold print_verdict.
    destruct b; intros [= <-]; reflexivity. }
  simpl. rewrite Hsame, Hi. destruct o; reflexivity.
Qed.

(** X6.  The last three lines that [main] prints are its verdict, and
    they agree with the value it returns: "Ready for deployment!" with
    QGIS integration working when it returns [True], "Ready for deployment
    with limitations!" when it returns [False]; in both cases the last
    line says that the fallback method is available. *)
Theorem main_verdict_lines (w : World) :
  exists (b : bool) (before : list string),
    fst (run (main w)) = Ok b /\
    printed (snd (run (main w))) =
      (before ++
       if b then
         [ (nl ++ "✅ Ready for deployment!")%string;
           "  - QGIS integration: Working";
           "  - Fallback method: Available" ]
       else
         [ (nl ++ "⚠️  Ready for deployment with limitations!")%string;
           "  - QGIS integration: Not available";
           "  - Fallback method: Available (sufficient for basic usage)" ])%list.
Proof.
  destruct (resolves_somewhere w) as [o Ho].
  destruct (main_run w o Ho) as (b & t & t' & _ & _ & Hverdict & ->).
  exists b, (printed t). split; [reflexivity|].
  revert Hverdict. unfold print_verdict.
  destruct b; intros [= <-]; simpl; rewrite <- !app_assoc; reflexivity.
Qed.

(* ------------------------------------------------------------------ *)
(** ** More on the resolver *)

Lemma walk_some_inv {X} (P : X -> Prop) xs seen x :
  walk P xs seen (Some x) -> P x /\ In x xs.
Proof.
  intros H. inversion H; subst. split; [assumption|].
  apply in_or_app. right. left. reflexivity.
Qed.


(** The value of the resolver, by cases. *)
Lemma resolves_to_cases w o :
  resolves_to w o ->
  (exists p, o = Some p /\ environ w !! "QGIS_PATH" = Some p /\ path_exists w p)
  \/
  (no_override w /\
   match possible_paths (Str.lower (platform_system w)) with
   | Some paths => exists seen, walk (path_exists w) paths seen o
   | None => o = None
   end).
Proof.
  unfold resolves_to, run. intros H.
  destruct (no_override_dec w) as [Hno|(q & Henv & Hex)].
  - right. split; [exact Hno|].
    rewrite (get_qgis_path_fallback w start Hno) in H.
    destruct (possible_paths _) as [paths|].
    + match type of H with context [first_existing w ?s paths ?t'] =>
        destruct (first_existing_run w s paths t') as (o' & seen & Hrun & Hwalk) end.
      rewrite Hrun in H. injection H as <-. exists seen. exact Hwalk.
    + injection H as <-. reflexivity.
  - left. rewrite (get_qgis_path_override w start q Henv Hex) in H.
    injection H as <-. exists q. repeat split; assumption.
Qed.

(** X7.  A path that the resolver returns exists, and it is either the
    value of [QGIS_PATH] or one of the candidates of the platform. *)
Theorem get_qgis_path_sound (w : World) (p : string) :
  resolves_to w (Some p) ->
  path_exists w p /\
  (environ w !! "QGIS_PATH" = Some p \/
   exists paths,
     possible_paths (Str.lower (platform_system w)) = Some paths /\
     In p paths).
Proof.
  intros H.
  destruct (resolves_to_cases w _ H) as [(q & [= <-] & Henv & Hex)|[_ Hfall]].
  - split; [exact Hex | left; exact Henv].
  - destruct (possible_paths _) as [paths|]; [|discriminate].
    destruct Hfall as [seen Hwalk].
    apply walk_some_inv in Hwalk as [Hex Hin].
    split; [exact Hex|]. right. exists paths. split; [reflexivity | exact Hin].
Qed.

Lemma get_qgis_path_sound_witness :
  path_exists (Sample.linux_box Sample.listing5) "/usr/local/bin/qgis_process" /\
  (environ (Sample.linux_box Sample.listing5) !! "QGIS_PATH"
     = Some "/usr/local/bin/qgis_process" \/
   exists paths,
     possible_paths
       (Str.lower (platform_system (Sample.linux_box Sample.listing5)))
       = Some paths /\
     In "/usr/local/bin/qgis_process" paths).
Proof.
  apply (get_qgis_path_sound (Sample.linux_box Sample.listing5)).
  vm_compute. reflexivity.
Defined.


(* ------------------------------------------------------------------ *)
(** ** The version check decides nothing *)

Lemma bind_ext {A B} (m m' : M A) (k k' : A -> M B) t :
  m t = m' t -> (forall a t', k a t' = k' a t') ->
  bind m k t = bind m' k' t.
Proof.
  intros Hm Hk. unfold bind. rewrite Hm.
  destruct (m' t) as [[a|e] t']; [apply Hk | reflexivity].
Qed.

Lemma first_existing_ext w w' system paths t :
  (forall p, fs w p = fs w' p) ->
  first_existing w system paths t = first_existing w' system paths t.
Proof.
  intros Hfs. revert t. induction paths as [|path rest IH]; intros t.
  - reflexivity.
  - simpl. apply bind_ext.
    + unfold os_path_exists. rewrite (Hfs path). reflexivity.
    + intros [|] t'; [reflexivity | apply IH].
Qed.

(** The resolver reads the environment, the platform and the file system
    only. *)
Lemma get_qgis_path_ext w w' t :
  environ w = environ w' -> platform_system w = platform_system w' ->
  (forall p, fs w p = fs w' p) ->
  get_qgis_path w t = get_qgis_path w' t.
Proof.
  intros Henv Hsys Hfs. unfold get_qgis_path. rewrite Henv, Hsys.
  apply bind_ext.
  - unfold env_path_exists. destruct (environ w' !! "QGIS_PATH") as [q|];
      [|reflexivity].
    destruct (Str.truthy q); [|reflexivity].
    unfold os_path_exists. rewrite (Hfs q). reflexivity.
  - intros [|] t'; [reflexivity|].
    destruct (possible_paths _); [|reflexivity].
    apply first_existing_ext. exact Hfs.
Qed.

(** The record after the listing, with the version left open. *)
Lemma info_with_value w p info t :
  invoked t = [] ->
  exists rest : gmap string value,
    (forall key, key <> "qgis_version" ->
       rest !! key =
         match proc w 0 [p; "list"] 30%Z with
         | Returns r =>
             if (returncode r =? 0)%Z then
               (<["qgis_working" := VBool true]>
                (<["tile_algorithms" :=
                     VList (info_tile_algorithms (clean_lines (stdout r)))]>
                (<["total_algorithms" :=
                     VInt (Z.of_nat (List.length (clean_lines (stdout r))))]>
                 info))) !! key
             else
               (<["error" := VStr (str_or (stderr r) "QGIS command failed")]>
                (<["qgis_working" := VBool false]> info)) !! key
         | Raises e =>
             (<["error" := VStr (match exn_cls e with
                                 | TimeoutExpired => "QGIS command timed out"
                                 | _ => exn_str e
                                 end)]>
              (<["qgis_working" := VBool false]> info)) !! key
         end) /\
    fst (info_with w p info t) = Ok rest.
Proof.
  intros Hinv.
  destruct (proc w 0 [p; "list"] 30%Z) as [r|e] eqn:Hlist.
  - destruct (returncode r =? 0)%Z eqn:E.
    + apply Z.eqb_eq in E.
      destruct (info_with_listed w p info t r Hinv Hlist E) as (v & -> & _).
      eexists. split; [|reflexivity].
      intros key Hkey. rewrite lookup_insert_ne by congruence. reflexivity.
    + apply Z.eqb_neq in E.
      rewrite (info_with_exit w p info t r Hinv Hlist E).
      eexists. split; [|reflexivity]. reflexivity.
  - rewrite (info_with_raised w p info t e Hinv Hlist).
    eexists. split; [|reflexivity]. reflexivity.
Qed.

(** X9.  The version check decides nothing.  In two worlds that differ
    only in what a version check does (it may return, fail, time out or
    raise), [check_qgis_algorithms] returns the same value, and the
    records of [get_qgis_info] agree on every field except
    [qgis_version]. *)
Theorem version_check_is_optional (w w' : World) :
  same_but_version w w' ->
  fst (run (check_qgis_algorithms w)) = fst (run (check_qgis_algorithms w')) /\
  exists info info' : gmap string value,
    fst (run (get_qgis_info w)) = Ok info /\
    fst (run (get_qgis_info w')) = Ok info' /\
    forall key, key <> "qgis_version" -> info !! key = info' !! key.
Proof.
  intros (Henv & Hsys & Hfs & Hproc).
  destruct (resolves_somewhere w) as [o Ho].
  assert (Ho' : resolves_to w' o).
  { unfold resolves_to, run in *.
    rewrite <- (get_qgis_path_ext w w' start Henv Hsys Hfs). exact Ho. }
  split.
  - unfold run.
    destruct (check_qgis_algorithms_run w start o Ho) as [-> _].
    destruct (check_qgis_algorithms_run w' start o Ho') as [-> _].
    destruct o as [p|]; [|reflexivity].
    simpl. unfold listing_succeeds. rewrite (Hproc 1 [p; "list"] 60%Z eq_refl).
    reflexivity.
  - destruct o as [p|].
    + destruct (get_qgis_info_resolved w p Ho) as (t & Hinv & ->).
      destruct (get_qgis_info_resolved w' p Ho') as (t' & Hinv' & ->).
      destruct (info_with_value w p (initial_info w (Some p)) t Hinv)
        as (rest & Hrest & ->).
      destruct (info_with_value w' p (initial_info w' (Some p)) t' Hinv')
        as (rest' & Hrest' & ->).
      exists rest, rest'. split; [reflexivity|]. split; [reflexivity|].
      intros key Hkey. rewrite (Hrest key Hkey), (Hrest' key Hkey).
      rewrite (Hproc 0 [p; "list"] 30%Z eq_refl).
      unfold initial_info. rewrite Hsys. reflexivity.
    + destruct (get_qgis_info_absent w Ho) as (t & _ & ->).
      destruct (get_qgis_info_absent w' Ho') as (t' & _ & ->).
      eexists _, _. split; [reflexivity|]. split; [reflexivity|].
      intros key _. unfold initial_info. rewrite Hsys. reflexivity.
Qed.

Lemma version_check_is_optional_witness :
  fst (run (check_qgis_algorithms Cases.plain))
    = fst (run (check_qgis_algorithms Cases.hanging)) /\
  exists info info' : gmap string value,
    fst (run (get_qgis_info Cases.plain)) = Ok info /\
    fst (run (get_qgis_info Cases.hanging)) = Ok info' /\
    forall key, key <> "qgis_version" -> info !! key = info' !! key.
Proof.
  apply (version_check_is_optional Cases.plain Cases.hanging).
  split; [reflexivity|]. split; [reflexivity|]. split; [reflexivity|].
  intros n args timeout H. simpl. unfold Cases.no_version. rewrite H.
  reflexivity.
Defined.

(* ------------------------------------------------------------------ *)
(** ** The shape of the summary record *)

Lemma info_tile_algorithms_length lines :
  List.length (info_tile_algorithms lines) <= 5 /\
  List.length (info_tile_algorithms lines) <= List.length lines.
Proof.
  unfold info_tile_algorithms. split.
  - apply firstn_le_length.
  - rewrite length_firstn.
    pose proof (List.filter_length_le (any_keyword_in info_tile_keywords) lines).
    lia.
Qed.

(** The three records that [get_qgis_info] can return. *)
Lemma get_qgis_info_shape w :
  exists o, resolves_to w o /\
    ((o = None /\ fst (run (get_qgis_info w)) = Ok (initial_info w None)) \/
     (exists lines version,
        fst (run (get_qgis_info w)) =
          Ok (<["qgis_version" := VStr version]>
             (<["qgis_working" := VBool true]>
             (<["tile_algorithms" := VList (info_tile_algorithms lines)]>
             (<["total_algorithms" := VInt (Z.of_nat (List.length lines))]>
             (initial_info w o)))))) \/
     (exists message,
        fst (run (get_qgis_info w)) =
          Ok (<["error" := VStr message]>
             (<["qgis_working" := VBool false]> (initial_info w o))))).
Proof.
  destruct (resolves_somewhere w) as [[p|] Ho].
  - exists (Some p). split; [exact Ho|]. right.
    destruct (get_qgis_info_resolved w p Ho) as (t & Hinv & ->).
    destruct (proc w 0 [p; "list"] 30%Z) as [r|e] eqn:Hlist.
    + destruct (Z.eq_dec (returncode r) 0%Z) as [E|E].
      * left.
        destruct (info_with_listed w p (initial_info w (Some p)) t r
                    Hinv Hlist E) as (version & -> & _).
        exists (clean_lines (stdout r)), version. reflexivity.
      * right. rewrite (info_with_exit w p _ t r Hinv Hlist E).
        eexists. reflexivity.
    + right. rewrite (info_with_raised w p _ t e Hinv Hlist).
      eexists. reflexivity.
  - exists None. split; [exact Ho|]. left.
    destruct (get_qgis_info_absent w Ho) as (t & _ & ->).
    split; reflexivity.
Qed.

(** X10.  The record of [get_qgis_info] has one of three shapes.  It
    always holds [qgis_found] (true exactly when a path was resolved),
    [qgis_path], [platform] and [manual_method_available] (true).  Beyond
    these it holds nothing when no path was resolved; or [qgis_working]
    true with [total_algorithms], [tile_algorithms] (at most five names, and
    no more than there are algorithms) and [qgis_version], and no [error];
    or [qgis_working] false with an [error] text and none of the other
    three. *)
Theorem get_qgis_info_schema (w : World) :
  exists (info : gmap string value) (o : option string),
    fst (run (get_qgis_info w)) = Ok info /\
    resolves_to w o /\
    info !! "qgis_found" = Some (VBool (bool_decide (o <> None))) /\
    info !! "qgis_path" = Some (opt_value o) /\
    info !! "platform" = Some (VStr (platform_system w)) /\
    info !! "manual_method_available" = Some (VBool true) /\
    ((o = None /\
      info !! "qgis_working" = None /\ info !! "error" = None /\
      info !! "total_algorithms" = None /\ info !! "tile_algorithms" = None /\
      info !! "qgis_version" = None)
     \/
     (exists (total : nat) (tiles : list string) (version : string),
        info !! "qgis_working" = Some (VBool true) /\
        info !! "total_algorithms" = Some (VInt (Z.of_nat total)) /\
        info !! "tile_algorithms" = Some (VList tiles) /\
        info !! "qgis_version" = Some (VStr version) /\
        info !! "error" = None /\
        List.length tiles <= 5 /\ List.length tiles <= total)
     \/
     (exists message : string,
        info !! "qgis_working" = Some (VBool false) /\
        info !! "error" = Some (VStr message) /\
        info !! "total_algorithms" = None /\ info !! "tile_algorithms" = None /\
        info !! "qgis_version" = None)).
Proof.
  destruct (get_qgis_info_shape w)
    as (o & Ho & [[-> ->]|[(lines & version & ->)|(message & ->)]]).
  - eexists _, None. split; [reflexivity|]. split; [exact Ho|].
    repeat (split; [reflexivity|]). left. repeat split; reflexivity.
  - eexists _, o. split; [reflexivity|]. split; [exact Ho|].
    repeat (split; [reflexivity|]). right. left.
    exists (List.length lines), (info_tile_algorithms lines), version.
    repeat (split; [reflexivity|]). apply info_tile_algorithms_length.
  - eexists _, o. split; [reflexivity|]. split; [exact Ho|].
    repeat (split; [reflexivity|]). right. right.
    exists message. repeat split; reflexivity.
Qed.

Lemma items_keys_sublist (info : gmap string value) (keys : list string) :
  sublist (map fst (omap (fun key => (fun v => (key, v)) <$> info !! key) keys))
          keys.
Proof.
  induction keys as [|key keys IH]; simpl; [constructor|].
  destruct (info !! key); simpl.
  - apply sublist_skip. exact IH.
  - apply sublist_cons. exact IH.
Qed.

(** X11.  The record of [get_qgis_info] has no field beyond the nine keys
    that the function ever inserts, so going through those keys in
    insertion order, as the summary of [main] does, meets every field of
    the record exactly once. *)
Theorem get_qgis_info_items_complete (w : World) :
  exists info : gmap string value,
    fst (run (get_qgis_info w)) = Ok info /\
    list_to_map (items info) = info /\
    NoDup (map fst (items info)).
Proof.
  assert (Hnodup : forall info : gmap string value,
            NoDup (map fst (items info))).
  { intros info. eapply sublist_NoDup; [|apply items_keys_sublist].
    apply (bool_decide_unpack _). vm_compute. reflexivity. }
  destruct (get_qgis_info_shape w)
    as (o & Ho & [[-> ->]|[(lines & version & ->)|(message & ->)]]);
    eexists; (split; [reflexivity|]); (split; [reflexivity | apply Hnodup]).
Qed.

(* ------------------------------------------------------------------ *)
(** ** More on the classifier *)

Module StripFacts.
Import Str.

(** No white space in front. *)
Definition headed (l : list string) : Prop :=
  match l with
  | [] => True
  | ch :: _ => isspace ch = false
  end.

Lemma drop_space_headed l : headed (drop_space l).
Proof.
  induction l as [|ch l IH]; simpl; [exact I|].
  destruct (isspace ch) eqn:E; [exact IH | exact E].
Qed.

Lemma drop_space_of_headed l : headed l -> drop_space l = l.
Proof. destruct l as [|ch l]; simpl; [reflexivity|]. intros ->. reflexivity. Qed.

Lemma drop_space_end_headed l : headed l -> headed (drop_space_end l).
Proof.
  destruct l as [|ch l]; simpl; [trivial|]. intros Hch.
  destruct (drop_space_end l); [rewrite Hch|]; exact Hch.
Qed.

Lemma drop_space_end_again l :
  drop_space_end (drop_space_end l) = drop_space_end l.
Proof.
  induction l as [|ch l IH]; simpl; [reflexivity|].
  destruct (drop_space_end l) as [|d kept] eqn:E.
  - destruct (isspace ch) eqn:Ech; simpl; [reflexivity|].
    rewrite Ech. reflexivity.
  - change (drop_space_end (ch :: d :: kept))
      with (match drop_space_end (d :: kept) with
            | [] => if isspace ch then [] else [ch]
            | a :: more => ch :: a :: more
            end).
    rewrite IH. reflexivity.
Qed.

(** Stripping a stripped list changes nothing. *)
Lemma strip_list_again l :
  drop_space_end (drop_space (drop_space_end (drop_space l))) =
  drop_space_end (drop_space l).
Proof.
  rewrite (drop_space_of_headed (drop_space_end (drop_space l)))
    by apply drop_space_end_headed, drop_space_headed.
  apply drop_space_end_again.
Qed.

Lemma Forall_drop_space (P : string -> Prop) l :
  Forall P l -> Forall P (drop_space l).
Proof.
  induction 1 as [|ch l Hch Hl IH]; simpl; [constructor|].
  destruct (isspace ch); [exact IH | constructor; assumption].
Qed.

Lemma Forall_drop_space_end (P : string -> Prop) l :
  Forall P l -> Forall P (drop_space_end l).
Proof.
  induction 1 as [|ch l Hch Hl IH]; simpl; [constructor|].
  destruct (drop_space_end l) as [|d kept].
  - destruct (isspace ch); repeat constructor; assumption.
  - constructor; assumption.
Qed.

Lemma segmented_drop_space l : segmented l -> segmented (drop_space l).
Proof.
  induction l as [|ch l IH]; intros Hseg; simpl; [exact Hseg|].
  destruct (isspace ch); [|exact Hseg].
  apply IH. exact (StrFacts.segmented_tail _ _ Hseg).
Qed.

Lemma segmented_drop_space_end l : segmented l -> segmented (drop_space_end l).
Proof.
  intros [Hok Htail]. split.
  - apply Forall_drop_space_end. exact Hok.
  - destruct l as [|ch l]; simpl in *; [constructor|].
    pose proof (Forall_drop_space_end _ _ Htail) as Hkept.
    destruct (drop_space_end l) as [|d kept].
    + destruct (isspace ch); constructor.
    + exact Hkept.
Qed.

(** [strip] is idempotent. *)
Lemma strip_strip s : strip (strip s) = strip s.
Proof.
  unfold strip.
  rewrite StrFacts.chars_unchars
    by apply segmented_drop_space_end, segmented_drop_space,
             StrFacts.chars_segmented.
  rewrite strip_list_again. reflexivity.
Qed.

Lemma has_app c a b : Fmt.has c (a ++ b) = Fmt.has c a || Fmt.has c b.
Proof.
  induction a as [|x a IH]; [reflexivity|].
  change (Fmt.has c (String x (a ++ b)) =
          Fmt.has c (String x a) || Fmt.has c b).
  simpl. rewrite IH, orb_assoc. reflexivity.
Qed.

Lemma has_unchars c l : Fmt.has c (unchars l) = existsb (Fmt.has c) l.
Proof.
  induction l as [|ch l IH]; [reflexivity|]. simpl.
  rewrite has_app, IH. reflexivity.
Qed.

Lemma has_unchars_false c l :
  Fmt.has c (unchars l) = false <-> Forall (fun ch => Fmt.has c ch = false) l.
Proof.
  rewrite has_unchars. induction l as [|ch l IH]; simpl.
  - split; [constructor | reflexivity].
  - rewrite orb_false_iff, IH. split.
    + intros [H1 H2]. constructor; assumption.
    + intros H. inversion H; subst. split; assumption.
Qed.

Lemma has_strip c s : Fmt.has c s = false -> Fmt.has c (strip s) = false.
Proof.
  intros H. unfold strip. apply has_unchars_false.
  apply Forall_drop_space_end, Forall_drop_space.
  apply has_unchars_false. rewrite StrFacts.unchars_chars. exact H.
Qed.

(** No piece of [s.split(sep)] holds the separator. *)
Lemma split_pieces sep s :
  Forall (fun piece => Fmt.has sep piece = false) (split sep s).
Proof.
  induction s as [|c s IH]; simpl.
  - repeat constructor.
  - destruct (Ascii.eqb c sep) eqn:E.
    + constructor; [reflexivity | exact IH].
    + destruct (split sep s) as [|piece pieces]; [repeat constructor; simpl|].
      * rewrite E. reflexivity.
      * inversion IH; subst. constructor; [|assumption].
        simpl. rewrite E. assumption.
Qed.

End StripFacts.

(** X12.  Every line that the script takes from the output of [list] is
    not empty, is trimmed (stripping it again changes nothing) and holds
    no line feed, whatever the binary printed. *)
Theorem clean_lines_invariant (out : string) :
  Forall (fun line =>
            line <> EmptyString /\ trimmed line /\
            Fmt.has Str.LF line = false)
         (clean_lines out).
Proof.
  unfold clean_lines.
  pose proof (StripFacts.split_pieces Str.LF out) as Hpieces.
  induction Hpieces as [|piece pieces Hpiece _ IH]; simpl; [constructor|].
  destruct (Str.truthy (Str.strip piece)) eqn:E; simpl; [|exact IH].
  constructor; [|exact IH].
  split; [|split].
  - intros Hempty. rewrite Hempty in E. discriminate.
  - apply StripFacts.strip_strip.
  - apply StripFacts.has_strip. exact Hpiece.
Qed.

Lemma filter_sublist_impl {X} (f g : X -> bool) (l : list X) :
  (forall x, f x = true -> g x = true) ->
  sublist (List.filter f l) (List.filter g l).
Proof.
  intros Himpl. induction l as [|x l IH]; simpl; [constructor|].
  destruct (f x) eqn:Ef.
  - rewrite (Himpl x Ef). apply sublist_skip. exact IH.
  - destruct (g x); [apply sublist_cons|]; exact IH.
Qed.

Lemma any_keyword_in_mono ks1 ks2 line :
  (forall k, In k ks1 -> In k ks2) ->
  any_keyword_in ks1 line = true -> any_keyword_in ks2 line = true.
Proof.
  unfold any_keyword_in. rewrite !existsb_exists.
  intros Hsub (k & Hin & Hk). exists k. split; [apply Hsub; exact Hin | exact Hk].
Qed.

(** X13.  The tile list in the record of [get_qgis_info] is a
    subsequence of the tile-related lines that [check_qgis_algorithms]
    reports for the same listing, with at most five entries. *)
Theorem info_tiles_within_report (lines : list string) :
  sublist (info_tile_algorithms lines) (tile_filter lines) /\
  List.length (info_tile_algorithms lines) <= 5 /\
  List.length (tile_filter lines) <= List.length lines.
Proof.
  split; [|split].
  - unfold info_tile_algorithms, tile_filter.
    etransitivity; [apply sublist_take|].
    apply filter_sublist_impl. intros line.
    apply any_keyword_in_mono. unfold info_tile_keywords, tile_keywords.
    simpl. tauto.
  - apply info_tile_algorithms_length.
  - apply List.filter_length_le.
Qed.

Lemma qtiles_contains_tile s :
  Str.contains "qtiles" s = true -> Str.contains "tile" s = true.
Proof.
  intros H. apply StrFacts.contains_spec in H as (before & after & ->).
  apply StrFacts.contains_spec.
  exists (before ++ "q"), ("s" ++ after).
  rewrite StrFacts.app_string_assoc. reflexivity.
Qed.

Lemma filter_ext_bool {X} (f g : X -> bool) (l : list X) :
  (forall x, f x = g x) -> List.filter f l = List.filter g l.
Proof.
  intros H. induction l as [|x l IH]; simpl; [reflexivity|].
  rewrite H, IH. reflexivity.
Qed.

(** X14.  The keyword qtiles decides nothing: a line that contains
    qtiles contains tile, so both tile filters select the same lines
    without it. *)
Theorem qtiles_keyword_redundant (lines : list string) :
  tile_filter lines =
    List.filter (any_keyword_in ["tile"; "xyz"; "tms"; "raster"]) lines /\
  info_tile_algorithms lines =
    firstn 5 (List.filter (any_keyword_in ["tile"; "xyz"; "tms"]) lines).
Proof.
  assert (H : forall rest line,
            any_keyword_in ("tile" :: "qtiles" :: rest) line =
            any_keyword_in ("tile" :: rest) line).
  { intros rest line. unfold any_keyword_in. simpl.
    destruct (Str.contains "tile" (Str.lower line)) eqn:Etile;
      [reflexivity|].
    destruct (Str.contains "qtiles" (Str.lower line)) eqn:Eq; [|reflexivity].
    apply qtiles_contains_tile in Eq. congruence. }
  split.
  - unfold tile_filter, tile_keywords. apply filter_ext_bool. apply H.
  - unfold info_tile_algorithms, info_tile_keywords. f_equal.
    apply filter_ext_bool. apply H.
Qed.

Lemma category_count_le keywords lines :
  category_count keywords lines <= List.length lines.
Proof.
  induction lines as [|line lines IH]; [reflexivity|].
  rewrite category_count_cons. simpl.
  destruct (any_keyword_in keywords line); lia.
Qed.

(** X15.  The category report always has the five categories Vector,
    Raster, Processing, Analysis, Export, in this order, and no count
    exceeds the number of lines. *)
Theorem category_counts_bounded (lines : list string) :
  map fst (category_counts lines) =
    ["Vector"; "Raster"; "Processing"; "Analysis"; "Export"] /\
  Forall (fun entry => snd entry <= List.length lines) (category_counts lines).
Proof.
  split; [reflexivity|].
  unfold category_counts, categories. simpl.
  repeat constructor; apply category_count_le.
Qed.

(* ------------------------------------------------------------------ *)
(** ** The size of the report *)

Section AtMost.

Lemma at_most_weaken {A} n n' (m : M A) :
  prints_at_most n m -> n <= n' -> prints_at_most n' m.
Proof.
  intros H Hle t. destruct (H t) as (d & Hd & Hlen).
  exists d. split; [exact Hd | lia].
Qed.

Lemma at_most_ret {A} (a : A) : prints_at_most 0 (ret a).
Proof. intros t. exists []. simpl. rewrite app_nil_r. split; [reflexivity | lia]. Qed.

Lemma at_most_print s : prints_at_most 1 (print s).
Proof. intros t. exists [s]. split; [reflexivity | simpl; lia]. Qed.

Lemma at_most_bind {A B} n1 n2 (m : M A) (k : A -> M B) :
  prints_at_most n1 m -> (forall a, prints_at_most n2 (k a)) ->
  prints_at_most (n1 + n2) (bind m k).
Proof.
  intros Hm Hk t. unfold bind. destruct (Hm t) as (d & Hd & Hlen).
  destruct (m t) as [[a|e] t']; simpl in Hd.
  - destruct (Hk a t') as (d' & Hd' & Hlen').
    exists (d ++ d')%list. rewrite Hd', Hd, app_assoc, length_app.
    split; [reflexivity | lia].
  - exists d. split; [exact Hd | lia].
Qed.

Lemma at_most_for_each {X} k (xs : list X) (body : X -> M unit) :
  (forall x, prints_at_most k (body x)) ->
  prints_at_most (List.length xs * k) (for_each xs body).
Proof.
  intros Hbody. induction xs as [|x xs IH]; simpl.
  - apply at_most_ret.
  - apply at_most_bind; [apply Hbody | intros _; exact IH].
Qed.

Lemma at_most_if {A} n1 n2 (b : bool) (m1 m2 : M A) :
  prints_at_most n1 m1 -> prints_at_most n2 m2 ->
  prints_at_most (Nat.max n1 n2) (if b then m1 else m2).
Proof.
  intros H1 H2. destruct b;
    [apply (at_most_weaken n1) | apply (at_most_weaken n2)];
    try assumption; lia.
Qed.

Lemma at_most_match_list {A X} n1 n2 (l : list X) (m1 : M A)
    (m2 : X -> list X -> M A) :
  prints_at_most n1 m1 -> (forall x xs, prints_at_most n2 (m2 x xs)) ->
  prints_at_most (Nat.max n1 n2)
    (match l with [] => m1 | x :: xs => m2 x xs end).
Proof.
  intros H1 H2. destruct l as [|x xs];
    [apply (at_most_weaken n1) | apply (at_most_weaken n2)];
    try apply H2; try assumption; lia.
Qed.

Lemma at_most_numbered k (algs : list string) :
  prints_at_most k (print_numbered (firstn k algs)).
Proof.
  unfold print_numbered.
  eapply at_most_weaken.
  - apply (at_most_for_each 1). intros [i alg]. apply at_most_print.
  - unfold enumerate. rewrite length_combine, length_seq, Nat.min_id.
    pose proof (firstn_le_length k algs). lia.
Qed.

End AtMost.

Ltac at_most_step :=
  cbv zeta;
  match goal with
  | |- prints_at_most _ (bind _ _) => eapply at_most_bind; [|intros ?]
  | |- prints_at_most _ (print_numbered (firstn _ _)) => apply at_most_numbered
  | |- prints_at_most _ (for_each _ _) =>
      eapply (at_most_for_each 1); intros [? ?]
  | |- prints_at_most _ (print _) => apply at_most_print
  | |- prints_at_most _ (ret _) => apply at_most_ret
  | |- prints_at_most _ (if _ then _ else _) => eapply at_most_if
  | |- prints_at_most _ (match _ with [] => _ | _ :: _ => _ end) =>
      eapply at_most_match_list; [|intros ? ?]
  end.

Lemma report_algorithms_at_most p lines :
  prints_at_most 43 (report_algorithms p lines).
Proof.
  unfold report_algorithms.
  eapply at_most_weaken; [repeat at_most_step | simpl; lia].
Qed.

Lemma report_not_found_at_most : prints_at_most 10 report_not_found.
Proof.
  unfold report_not_found.
  eapply at_most_weaken; [repeat at_most_step | simpl; lia].
Qed.

Lemma check_listed_at_most p r : prints_at_most 43 (check_listed p r).
Proof.
  unfold check_listed. destruct (negb _).
  - eapply at_most_weaken; [repeat at_most_step | simpl; lia].
  - apply report_algorithms_at_most.
Qed.

Lemma check_clauses_at_most p e :
  prints_at_most 2 (dispatch (check_clauses p) e).
Proof.
  unfold check_clauses. simpl.
  destruct (isinstance TimeoutExpired e);
    [|destruct (isinstance FileNotFoundError e)];
    (eapply at_most_weaken; [repeat at_most_step | simpl; lia]).
Qed.

Lemma get_qgis_path_at_most w : prints_at_most 1 (get_qgis_path w).
Proof.
  intros t. destruct (get_qgis_path_run w t) as (o & line & ps & -> & _).
  exists [line]. split; [reflexivity | simpl; lia].
Qed.

(** The [try] of [check_qgis_algorithms]: three lines at most before the
    listing, then either the report or the two lines of one clause. *)
Lemma check_with_at_most w p : prints_at_most 46 (check_with w p).
Proof.
  intros t.
  destruct (check_with_steps w p t) as (t1 & _ & (d & Hd & Hlen) & ->).
  destruct (proc w _ [p; "list"] 60%Z) as [r|e].
  - destruct (check_listed_at_most p r t1) as (d' & -> & Hlen').
    exists (d ++ d')%list. rewrite Hd, <- app_assoc, length_app.
    split; [reflexivity | lia].
  - destruct (check_clauses_at_most p e t1) as (d' & -> & Hlen').
    exists (d ++ d')%list. rewrite Hd, <- app_assoc, length_app.
    split; [reflexivity | lia].
Qed.

Lemma check_qgis_algorithms_at_most w :
  prints_at_most 55 (check_qgis_algorithms w).
Proof.
  unfold check_qgis_algorithms.
  eapply at_most_weaken.
  - do 5 at_most_step; try solve [repeat at_most_step].
    eapply at_most_bind; [apply get_qgis_path_at_most|].
    intros [p|]; [destruct (Str.truthy p)|].
    + apply check_with_at_most.
    + apply (at_most_weaken 10); [apply report_not_found_at_most | lia].
    + apply (at_most_weaken 10); [apply report_not_found_at_most | lia].
  - simpl. lia.
Qed.

(** X16.  However many algorithms the binary lists, on a standard output
    that accepts every line [check_qgis_algorithms] calls [print] at most
    55 times: the sample stops after 10 algorithms and the tile-related
    list after 15.  (This counts calls, not lines: the text of one call
    may hold line breaks.) *)
Theorem check_qgis_algorithms_report_bounded (w : World) :
  List.length (printed (snd (run (check_qgis_algorithms w)))) <= 55.
Proof.
  destruct (check_qgis_algorithms_at_most w start) as (d & Hd & Hlen).
  unfold run. rewrite Hd. exact Hlen.
Qed.

(* ------------------------------------------------------------------ *)
(** ** How failures are reported *)

(** X17.  On a standard output that accepts every line, when the listing
    of [check_qgis_algorithms] fails, the last calls of [print] of the run
    are the report of that failure, and no earlier call of [print] has a
    text that starts with the failure mark: a non-zero exit is reported
    with the standard error and the return code, a timeout with the
    timeout text, a missing executable with its path, and any other
    exception with its message and the name of its type. *)
Theorem check_qgis_algorithms_failure_report (w : World) (p : string) :
  resolves_to w (Some p) ->
  (forall r, proc w 1 [p; "list"] 60%Z = Returns r -> returncode r <> 0%Z) ->
  exists before : list string,
    Forall calm before /\
    printed (snd (run (check_qgis_algorithms w))) =
      (before ++
       match proc w 1 [p; "list"] 60%Z with
       | Returns r =>
           [ ("❌ QGIS command failed: " ++ stderr r)%string;
             ("Return code: " ++ pretty (returncode r))%string ]
       | Raises e =>
           match exn_cls e with
           | TimeoutExpired =>
               [ "❌ QGIS command timed out (60 seconds)";
                 "This might indicate QGIS is installed but not working properly" ]
           | FileNotFoundError =>
               [ ("❌ QGIS executable not found at: " ++ p)%string ]
           | OtherException name =>
               [ ("❌ Error checking QGIS: " ++ exn_str e)%string;
                 ("Exception type: " ++ name)%string ]
           end
       end)%list.
Proof.
  intros Hres Hfail.
  destruct (check_qgis_algorithms_resolved w p Hres) as (t & Hinv & Hcalm & ->).
  destruct (check_with_until_list w p t Hinv Hcalm) as (t1 & Hcalm1 & _ & ->).
  exists (printed t1). split; [exact Hcalm1|].
  unfold try_except.
  destruct (proc w 1 [p; "list"] 60%Z) as [r|e].
  - specialize (Hfail r eq_refl). apply Z.eqb_neq in Hfail.
    unfold check_listed. rewrite Hfail. simpl.
    rewrite <- app_assoc. reflexivity.
  - unfold check_clauses. simpl. unfold isinstance, type_name_of.
    destruct (exn_cls e); simpl; rewrite <- ?app_assoc; reflexivity.
Qed.

Lemma check_qgis_algorithms_failure_report_witness :
  exists before : list string,
    Forall calm before /\
    printed (snd (run (check_qgis_algorithms Sample.broken))) =
      (before ++ ["❌ QGIS executable not found at: /usr/bin/qgis_process"])%list.
Proof.
  apply (check_qgis_algorithms_failure_report Sample.broken
           "/usr/bin/qgis_process").
  - vm_compute. reflexivity.
  - intros r Hr. vm_compute in Hr. discriminate Hr.
Defined.

(** X18.  When the listing of [get_qgis_info] fails, the [error] field
    says why: after a non-zero exit it is the standard error, or the text
    "QGIS command failed" when the standard error is empty; after a timeout
    it is "QGIS command timed out"; after any other exception it is the
    message of the exception. *)
Theorem get_qgis_info_error_text (w : World) (p : string) :
  resolves_to w (Some p) ->
  (forall r, proc w 0 [p; "list"] 30%Z = Returns r -> returncode r <> 0%Z) ->
  exists info : gmap string value,
    fst (run (get_qgis_info w)) = Ok info /\
    info !! "error" =
      Some (VStr match proc w 0 [p; "list"] 30%Z with
                 | Returns r =>
                     match stderr r with
                     | EmptyString => "QGIS command failed"
                     | _ => stderr r
                     end
                 | Raises e =>
                     match exn_cls e with
                     | TimeoutExpired => "QGIS command timed out"
                     | _ => exn_str e
                     end
                 end).
Proof.
  intros Hres Hfail.
  destruct (get_qgis_info_resolved w p Hres) as (t & Hinv & ->).
  destruct (proc w 0 [p; "list"] 30%Z) as [r|e] eqn:Hlist.
  - rewrite (info_with_exit w p _ t r Hinv Hlist (Hfail r eq_refl)).
    eexists. split; [reflexivity|]. unfold str_or.
    destruct (stderr r); reflexivity.
  - rewrite (info_with_raised w p _ t e Hinv Hlist).
    eexists. split; [reflexivity|]. reflexivity.
Qed.

Lemma get_qgis_info_error_text_witness :
  exists info : gmap string value,
    fst (run (get_qgis_info Sample.broken)) = Ok info /\
    info !! "error" = Some (VStr "[Errno 2] No such file or directory").
Proof.
  apply (get_qgis_info_error_text Sample.broken "/usr/bin/qgis_process").
  - vm_compute. reflexivity.
  - intros r Hr. vm_compute in Hr. discriminate Hr.
Defined.

(** X19.  The record of [test_qgis_algorithm] has one of three sets of
    fields: [error] alone when no path was resolved; [algorithm],
    [available], [help] and [qgis_path] when the binary knows the
    algorithm; [algorithm], [available], [error] and [qgis_path]
    otherwise.  So [help] and [error] never come together, and with a
    resolved path [qgis_path] is that path. *)
Theorem test_qgis_algorithm_fields (w : World) (algorithm_name : string) :
  exists (rec : gmap string value) (o : option string),
    fst (run (test_qgis_algorithm w algorithm_name)) = Ok rec /\
    resolves_to w o /\
    match o with
    | None => dom rec = {[ "error" ]}
    | Some p =>
        rec !! "qgis_path" = Some (VStr p) /\
        ((rec !! "available" = Some (VBool true) /\
          dom rec = {[ "algorithm"; "available"; "help"; "qgis_path" ]}) \/
         (rec !! "available" = Some (VBool false) /\
          dom rec = {[ "algorithm"; "available"; "error"; "qgis_path" ]}))
    end.
Proof.
  destruct (resolves_somewhere w) as [[p|] Ho].
  - destruct (test_qgis_algorithm_resolved w p algorithm_name Ho)
      as (t & Hinv & ->).
    rewrite (test_with_run w p algorithm_name t Hinv).
    eexists _, (Some p). split; [reflexivity|]. split; [exact Ho|].
    destruct (proc w 0 [p; "help"; algorithm_name] 30%Z) as [r|e].
    + destruct (returncode r =? 0)%Z; (split; [reflexivity|]);
        [left | right]; (split; [reflexivity|]);
        apply leibniz_equiv; rewrite !dom_insert, dom_empty; set_solver.
    + split; [reflexivity|]. right. split; [reflexivity|].
      apply leibniz_equiv. rewrite !dom_insert, dom_empty. set_solver.
  - eexists _, None. split; [|split; [exact Ho|]].
    + destruct (get_qgis_path_then w start _ Ho) as (t & Hrun & _).
      unfold run, test_qgis_algorithm, bind. rewrite Hrun. reflexivity.
    + apply leibniz_equiv. rewrite dom_singleton. reflexivity.
Qed.
